(** * Titration experiment: pH engine, indicator colours, curve sampler, UI state

    Shallow embedding of [components/TitrationExperiment.tsx].

    JavaScript [number]s are read as real numbers: [+ - * /] are the field
    operations of [R], [Math.sqrt] is [sqrt], [Math.abs] is [Rabs],
    [Math.max]/[Math.min] are [Rmax]/[Rmin] and [Math.log10 x] is
    [ln x / ln 10].  Rounding of binary64 arithmetic is not modelled, and
    neither are [NaN] and the infinities: the model speaks for the program
    where logarithms and square roots are taken of positive numbers, which
    holds on every path of [calculatePH] for a volume [0 <= vBase] (the
    guards make each argument a quotient of positive numbers).

    Comparisons are decided on the exact values.  In binary64 arithmetic a
    guard can come out differently when its two sides are within a rounding
    error of each other; for [calculatePH] this happens at two places only:
    - the last binary64 volume below 25, 24.999999999999996, has its product
      with [cBase] rounded to 2.5, so that [molesB < molesA] is false for it;
    - the last binary64 volumes below 25 + 1e-8, from 25.000000009999997 on,
      have [molesB - molesA] rounded to 1e-9 or more, so that the epsilon
      test is false for them.
    Where a stated property depends on the side of these two guards a volume
    falls on, its domain stops at 25 - 1e-14 and at 25.00000000999999, up to
    which both readings take the same statement.

    The two [for] loops of the curve sampler take a fuel argument; the
    sampler's theorem shows how much fuel lets them run to their end. *)

From Stdlib Require Import Reals Lra Lia List String ZArith Bool.
Import ListNotations.

Open Scope string_scope.
Open Scope list_scope.
Open Scope R_scope.

(** ** JavaScript arithmetic on numbers *)

Module Math.

Definition log10 (x : R) : R := ln x / ln 10.
Definition sqrt (x : R) : R := R_sqrt.sqrt x.
Definition abs (x : R) : R := Rabs x.
Definition max (x y : R) : R := Rmax x y.
Definition min (x y : R) : R := Rmin x y.

End Math.

(** Comparisons of numbers, as booleans so that guards read as in the source. *)
Definition num_lt (x y : R) : bool := if Rlt_dec x y then true else false.
Definition num_le (x y : R) : bool := if Rle_dec x y then true else false.
Definition num_gt (x y : R) : bool := num_lt y x.
Definition num_eq (x y : R) : bool := if Req_EM_T x y then true else false.

Notation "x <. y" := (num_lt x y) (at level 70, no associativity).
Notation "x <=. y" := (num_le x y) (at level 70, no associativity).
Notation "x >. y" := (num_gt x y) (at level 70, no associativity).
Notation "x ===. y" := (num_eq x y) (at level 70, no associativity).

(** ** Constants and types *)

Definition ACID_VOL_INITIAL : R := 25.
Definition ACID_CONC : R := 0.1.
Definition BASE_CONC : R := 0.1.

Definition KA_ACETIC : R := 1.8e-5.
Definition KB_AMMONIA : R := 1.8e-5.
Definition KW : R := 1e-14.

Inductive IndicatorType : Type := phenolphthalein | methylRed | bromothymolBlue.
Inductive ElectrolyteType : Type := strong | weak.

Definition IndicatorType_eqb (a b : IndicatorType) : bool :=
  match a, b with
  | phenolphthalein, phenolphthalein => true
  | methylRed, methylRed => true
  | bromothymolBlue, bromothymolBlue => true
  | _, _ => false
  end.

Definition ElectrolyteType_eqb (a b : ElectrolyteType) : bool :=
  match a, b with
  | strong, strong => true
  | weak, weak => true
  | _, _ => false
  end.

Record TitrationState : Type := mkTitrationState {
  addedBaseVol : R;
  indicator : IndicatorType;
  acidType : ElectrolyteType;
  baseType : ElectrolyteType
}.

Record IndicatorInfo : Type := mkIndicatorInfo {
  name : string;
  rangeLow : R;
  rangeHigh : R;
  colorLow : string;
  colorHigh : string;
  label : string
}.

Definition INDICATORS (t : IndicatorType) : IndicatorInfo :=
  match t with
  | phenolphthalein =>
      {| name := "酚酞"; rangeLow := 8.2; rangeHigh := 10.0;
         colorLow := "#ffffff"; colorHigh := "#ec4899"; label := "8.2 - 10.0" |}
  | methylRed =>
      {| name := "甲基紅"; rangeLow := 4.4; rangeHigh := 6.2;
         colorLow := "#ef4444"; colorHigh := "#eab308"; label := "4.4 - 6.2" |}
  | bromothymolBlue =>
      {| name := "溴瑞香草芬藍"; rangeLow := 6.0; rangeHigh := 7.6;
         colorLow := "#eab308"; colorHigh := "#3b82f6"; label := "6.0 - 7.6" |}
  end.

(** ** The pH engine *)

(** The [return] statements of [calculatePH], one constructor each. *)
Inductive ReturnSite : Type :=
| SS_excessAcid | SS_equivalence | SS_excessBase
| WS_initial | WS_buffer | WS_equivalence | WS_excessBase
| SW_initial | SW_excessAcid | SW_equivalence | SW_buffer
| WW_initial | WW_bufferAcid | WW_equivalence | WW_bufferBase
| Fallback.

(** A block of the function body either returns or falls through to the
    statements after it. *)
Definition Block (A : Type) : Type := option A.
Definition ret {A} (x : A) : Block A := Some x.
Definition fallthrough {A} : Block A := None.
Definition stmt_seq {A} (b : Block A) (rest : Block A) : Block A :=
  match b with
  | Some x => Some x
  | None => rest
  end.

(** A function body made of such a block followed by a final [return]. *)
Definition returned {A} (b : Block A) (final : A) : A :=
  match b with
  | Some x => x
  | None => final
  end.
Notation "b ;; rest" := (stmt_seq b rest) (at level 61, right associativity).
Notation "'IF' c 'THEN' b" := (if c then b else fallthrough)
  (at level 10, c at level 200, b at level 200).

(** The guards compare exact values; the two volumes at which binary64
    arithmetic decides them differently are those of the header. *)
Definition calculatePH_body (vBase : R) (acidType baseType : ElectrolyteType)
  : Block (ReturnSite * R) :=
  let vAcid := ACID_VOL_INITIAL in
  let cAcid := ACID_CONC in
  let cBase := BASE_CONC in
  let molesA := vAcid * cAcid in
  let molesB := vBase * cBase in
  let totalVol := vAcid + vBase in
  (* 1. Strong Acid + Strong Base *)
  (IF ElectrolyteType_eqb acidType strong && ElectrolyteType_eqb baseType strong THEN
     if molesB <. molesA then
       ret (SS_excessAcid, - Math.log10 ((molesA - molesB) / totalVol))
     else if Math.abs (molesB - molesA) <. 1e-9 then
       ret (SS_equivalence, 7.0)
     else
       let pOH := - Math.log10 ((molesB - molesA) / totalVol) in
       ret (SS_excessBase, 14.0 - pOH)) ;;
  (* 2. Weak Acid + Strong Base *)
  (IF ElectrolyteType_eqb acidType weak && ElectrolyteType_eqb baseType strong THEN
     (IF vBase ===. 0 THEN
        ret (WS_initial, - Math.log10 (Math.sqrt (KA_ACETIC * cAcid)))) ;;
     (IF molesB <. molesA THEN
        let pKa := - Math.log10 KA_ACETIC in
        ret (WS_buffer, pKa + Math.log10 (molesB / (molesA - molesB)))) ;;
     (IF Math.abs (molesB - molesA) <. 1e-9 THEN
        let concSalt := molesA / totalVol in
        let Kb := KW / KA_ACETIC in
        let pOH := - Math.log10 (Math.sqrt (Kb * concSalt)) in
        ret (WS_equivalence, 14.0 - pOH)) ;;
     (IF molesB >. molesA THEN
        let pOH := - Math.log10 ((molesB - molesA) / totalVol) in
        ret (WS_excessBase, 14.0 - pOH))) ;;
  (* 3. Strong Acid + Weak Base *)
  (IF ElectrolyteType_eqb acidType strong && ElectrolyteType_eqb baseType weak THEN
     (IF vBase ===. 0 THEN
        ret (SW_initial, - Math.log10 cAcid)) ;;
     (IF molesB <. molesA THEN
        ret (SW_excessAcid, - Math.log10 ((molesA - molesB) / totalVol))) ;;
     (IF Math.abs (molesB - molesA) <. 1e-9 THEN
        let concSalt := molesA / totalVol in
        let Ka := KW / KB_AMMONIA in
        ret (SW_equivalence, - Math.log10 (Math.sqrt (Ka * concSalt)))) ;;
     (IF molesB >. molesA THEN
        let pKaNH4 := 14.0 - (- Math.log10 KB_AMMONIA) in
        ret (SW_buffer, pKaNH4 + Math.log10 ((molesB - molesA) / molesA)))) ;;
  (* 4. Weak Acid + Weak Base *)
  (IF ElectrolyteType_eqb acidType weak && ElectrolyteType_eqb baseType weak THEN
     let pKa := - Math.log10 KA_ACETIC in
     let pKaNH4 := 14.0 - (- Math.log10 KB_AMMONIA) in
     (IF vBase ===. 0 THEN
        ret (WW_initial, - Math.log10 (Math.sqrt (KA_ACETIC * cAcid)))) ;;
     (IF molesB <. molesA THEN
        ret (WW_bufferAcid, pKa + Math.log10 (molesB / (molesA - molesB)))) ;;
     (IF Math.abs (molesB - molesA) <. 1e-9 THEN
        ret (WW_equivalence, (pKa + pKaNH4) / 2)) ;;
     (IF molesB >. molesA THEN
        ret (WW_bufferBase, pKaNH4 + Math.log10 ((molesB - molesA) / molesA)))).

(** The four blocks followed by the last statement of the function,
    [return 7]; the result is paired with the statement it comes from. *)
Definition calculatePH_traced (vBase : R) (acidType baseType : ElectrolyteType)
  : ReturnSite * R :=
  returned (calculatePH_body vBase acidType baseType) (Fallback, 7).

Definition calculatePH (vBase : R) (acidType baseType : ElectrolyteType) : R :=
  snd (calculatePH_traced vBase acidType baseType).

Definition returnSite (vBase : R) (acidType baseType : ElectrolyteType) : ReturnSite :=
  fst (calculatePH_traced vBase acidType baseType).

(** ** Indicator colour *)

Definition getSolutionColor (ph : R) (type : IndicatorType) : string :=
  let ind := INDICATORS type in
  returned
    ((IF ph <. rangeLow ind THEN ret "#f1f5f9") ;;
     (IF IndicatorType_eqb type phenolphthalein THEN
        (IF ph <. 8.2 THEN ret "#f8fafc") ;;
        (IF ph >. 10.0 THEN ret "#ec4899") ;;
        ret "#fbcfe8") ;;
     (IF IndicatorType_eqb type methylRed THEN
        (IF ph <. 4.4 THEN ret "#ef4444") ;;
        (IF ph >. 6.2 THEN ret "#eab308") ;;
        ret "#f97316") ;;
     (IF IndicatorType_eqb type bromothymolBlue THEN
        (IF ph <. 6.0 THEN ret "#eab308") ;;
        (IF ph >. 7.6 THEN ret "#3b82f6") ;;
        ret "#22c55e"))
    "#f1f5f9".

(** ** Component state and its handlers *)

Definition initialState : TitrationState :=
  {| addedBaseVol := 0;
     indicator := phenolphthalein;
     acidType := strong;
     baseType := strong |}.

(** Each handler is the updater function it passes to [setState]. *)

Definition addVolume (amount : R) (prev : TitrationState) : TitrationState :=
  {| addedBaseVol := Math.max 0 (Math.min (addedBaseVol prev + amount) 50);
     indicator := indicator prev;
     acidType := acidType prev;
     baseType := baseType prev |}.

Definition reset (prev : TitrationState) : TitrationState :=
  {| addedBaseVol := 0;
     indicator := indicator prev;
     acidType := acidType prev;
     baseType := baseType prev |}.

Definition onAcidChange (value : ElectrolyteType) (prev : TitrationState) : TitrationState :=
  {| addedBaseVol := 0;
     indicator := indicator prev;
     acidType := value;
     baseType := baseType prev |}.

Definition onBaseChange (value : ElectrolyteType) (prev : TitrationState) : TitrationState :=
  {| addedBaseVol := 0;
     indicator := indicator prev;
     acidType := acidType prev;
     baseType := value |}.

Definition onIndicatorChange (value : IndicatorType) (prev : TitrationState) : TitrationState :=
  {| addedBaseVol := addedBaseVol prev;
     indicator := value;
     acidType := acidType prev;
     baseType := baseType prev |}.

(** The controls of the component: three selects, six volume buttons (whose
    amounts are [-5], [-1], [-0.1], [0.1], [1], [5]) and the reset button. *)
Inductive Event : Type :=
| SelectAcid (value : ElectrolyteType)
| SelectBase (value : ElectrolyteType)
| SelectIndicator (value : IndicatorType)
| ClickVolume (amount : R)
| ClickReset.

Definition handle (e : Event) (prev : TitrationState) : TitrationState :=
  match e with
  | SelectAcid value => onAcidChange value prev
  | SelectBase value => onBaseChange value prev
  | SelectIndicator value => onIndicatorChange value prev
  | ClickVolume amount => addVolume amount prev
  | ClickReset => reset prev
  end.

Definition currentPH (state : TitrationState) : R :=
  calculatePH (addedBaseVol state) (acidType state) (baseType state).

Definition currentColor (state : TitrationState) : string :=
  getSolutionColor (currentPH state) (indicator state).

(** ** Graph data generation *)

Record GraphPoint : Type := mkGraphPoint { v : R; ph : R }.

Section GraphPoints.

Variables acid base : ElectrolyteType.

Definition point (x : R) : GraphPoint :=
  {| v := x; ph := calculatePH x acid base |}.

(** [for (let fineV = v; fineV < v + 0.5; fineV += 0.1) points.push(...)];
    [None] when the fuel runs out before the loop condition fails. *)
Fixpoint fineLoop (fuel : nat) (v0 fineV : R) (points : list GraphPoint)
  : option (list GraphPoint) :=
  match fuel with
  | O => None
  | S fuel' =>
      if fineV <. v0 + 0.5 then
        fineLoop fuel' v0 (fineV + 0.1) (points ++ [point fineV])
      else Some points
  end.

(** [for (let v = 0; v <= 50; v += 0.5) { ... }] from the current [v]. *)
Fixpoint coarseLoop (fuel : nat) (v0 : R) (points : list GraphPoint)
  : option (list GraphPoint) :=
  match fuel with
  | O => None
  | S fuel' =>
      if v0 <=. 50 then
        if (v0 >. 24) && (v0 <. 26) then
          match fineLoop fuel' v0 v0 points with
          | Some points' => coarseLoop fuel' (v0 + 0.5) points'
          | None => None
          end
        else coarseLoop fuel' (v0 + 0.5) (points ++ [point v0])
      else Some points
  end.

End GraphPoints.

Definition graphPoints (fuel : nat) (state : TitrationState) : option (list GraphPoint) :=
  coarseLoop (acidType state) (baseType state) fuel 0 [].


(** ** Vocabulary of the stated properties *)

(** The strength combination whose block of [calculatePH] a return statement
    belongs to; the final [return 7] belongs to none. *)
Definition site_combination (s : ReturnSite) : option (ElectrolyteType * ElectrolyteType) :=
  match s with
  | SS_excessAcid | SS_equivalence | SS_excessBase => Some (strong, strong)
  | WS_initial | WS_buffer | WS_equivalence | WS_excessBase => Some (weak, strong)
  | SW_initial | SW_excessAcid | SW_equivalence | SW_buffer => Some (strong, weak)
  | WW_initial | WW_bufferAcid | WW_equivalence | WW_bufferBase => Some (weak, weak)
  | Fallback => None
  end.

(** [x] is [y] up to the tolerance [tol]. *)
Definition approximately (tol x y : R) : Prop := Rabs (x - y) <= tol.

(** Pairs of neighbours of a list, in order. *)
Definition neighbours {A} (l : list A) : list (A * A) := combine l (tl l).

(** Volumes of the sweep that lie 0.1 mL or more away from its start and from
    the equivalence volume, or exactly on the equivalence volume; every
    positive multiple of 0.1 mL up to 50 mL is one of them. *)
Definition clear_of_equivalence (x : R) : Prop :=
  0.1 <= x <= 24.9 \/ x = 25 \/ 25.1 <= x <= 50.

(** *** The three stretches of the sweep

    [calculatePH] changes formula at 25 mL, where the base moles reach the
    acid moles, and at 25 mL + 1e-8 mL, where they exceed them by the epsilon
    1e-9.  The stretches stop short of these two volumes by the few binary64
    volumes at which rounding decides the guards the other way. *)
Definition before_equivalence (x : R) : Prop := x <= 25 - 1e-14.
Definition equivalence_window (x : R) : Prop := 25 <= x <= 25.00000000999999.
Definition after_equivalence (x : R) : Prop := 25 + 1e-8 <= x.

(** *** Volumes at which the pH is on the scale from 0 to 14

    Before equivalence the excess formula of a strong acid is on the scale
    until 5.1e-12 mL before 25 mL; the buffer formula of a weak acid is below
    0 during the first 0.00045 mL and above 14 from 24.999999986 mL on.  From
    25 mL on a strong base is on the scale throughout; the buffer formula of
    a weak base is below 0 until 25.000000014 mL. *)
Definition in_range_volume (acid base : ElectrolyteType) (x : R) : Prop :=
  match acid with
  | strong => 0 <= x <= 25 - 5.1e-12
  | weak => x = 0 \/ 0.00045 <= x <= 24.999999986
  end
  \/
  match base with
  | strong => 25 <= x <= 50
  | weak => 25 <= x <= 25.00000000999999 \/ 25.000000014 <= x <= 50
  end.

(** *** Pairs of volumes between which the pH does not decrease

    The weak/weak combination is not among the compared ones. *)

(** Volumes before equivalence at which the pH has not yet passed the value
    it takes in the equivalence window. *)
Definition below_crossing (acid base : ElectrolyteType) (x : R) : Prop :=
  match acid, base with
  | strong, strong => x <= 24.99995
  | weak, strong => x <= 24.997365
  | strong, weak => x <= 24.9973649
  | weak, weak => False
  end.

(** Volumes after the window at which the pH is back to the value of the
    window or above it. *)
Definition above_crossing (acid base : ElectrolyteType) (x : R) : Prop :=
  match acid, base with
  | strong, strong => 25.0000500001 <= x
  | weak, strong => 25.0026354 <= x
  | strong, weak => 25.0026353 <= x
  | weak, weak => False
  end.

(** A volume [v1] before equivalence and a volume [v2] after the window.
    With [margin] 1 the inequality says that the formula before [v1] gives no
    more than the formula after [v2]: it compares the moles and volumes under
    the two logarithms, cleared of their denominators. *)
Definition across_equivalence_by (margin : R) (acid base : ElectrolyteType)
  (v1 v2 : R) : Prop :=
  match acid, base with
  | strong, strong =>
      margin * ((25 + v1) * (25 + v2)) <= 1e12 * ((25 - v1) * (v2 - 25))
  | weak, strong =>
      margin * (v1 * (25 + v2)) <= 1.8e8 * ((25 - v1) * (v2 - 25))
  | strong, weak =>
      margin * (25 * (25 + v1)) <= 1.8e8 * ((25 - v1) * (v2 - 25))
  | weak, weak => False
  end.

(** The pairs compared across the window: a margin of one part in 10000
    keeps them away from the pairs at which the two formulas agree up to the
    rounding of the moles. *)
Definition across_equivalence : ElectrolyteType -> ElectrolyteType -> R -> R -> Prop :=
  across_equivalence_by 1.0001.

(** The pairs [v1 <= v2]: both before equivalence (a weak acid leaving the
    start only for 0.33097 mL or more), both after the window, both in the
    window (weak acid: the same volume), into the window, out of it, or
    across it. *)
Definition comparable_volumes (acid base : ElectrolyteType) (v1 v2 : R) : Prop :=
  (before_equivalence v2 /\ (acid = weak -> v1 = 0 -> v2 = 0 \/ 0.33097 <= v2))
  \/ after_equivalence v1
  \/ (equivalence_window v1 /\ equivalence_window v2 /\ (acid = weak -> v1 = v2))
  \/ (below_crossing acid base v1 /\ equivalence_window v2)
  \/ (equivalence_window v1 /\ above_crossing acid base v2)
  \/ (before_equivalence v1 /\ after_equivalence v2 /\ across_equivalence acid base v1 v2).

(** [n] volumes from [start] on, [step] apart. *)
Definition sweep (start step : R) (n : nat) : list R :=
  map (fun i => start + INR i * step) (List.seq 0 n).

(** The volumes of the graph: 0 to 24 by 0.5, 24.5 to 25.9 by 0.1 and 26 to
    50 by 0.5. *)
Definition sampledVolumes : list R :=
  sweep 0 0.5 49 ++ sweep 24.5 0.1 15 ++ sweep 26 0.5 49.

(** The distance from a sampled volume [a] to the next one [b]: 0.1 when [a]
    is in [lo, 26), 0.5 elsewhere. *)
Definition resolution_from (lo : R) (ab : R * R) : Prop :=
  let (a, b) := ab in
  a < b
  /\ (lo <= a < 26 -> b - a = 0.1)
  /\ (a < lo \/ 26 <= a -> b - a = 0.5).

(** The states the component can be in: the initial one and those the
    controls lead to. *)
Inductive reachable : TitrationState -> Prop :=
| reachable_initial : reachable initialState
| reachable_handle (e : Event) (s : TitrationState) :
    reachable s -> reachable (handle e s).

(** * The rest of the titration component *)

(** ** Explanation card *)

Record Explanation : Type := mkExplanation {
  title : string;
  formula : string;
  desc : string
}.

(** The [return] statements of [getExplanation], one constructor each. *)
Inductive ExplanationSite : Type :=
| E_SS_initial | E_SS_excessAcid | E_SS_equivalence | E_SS_excessBase
| E_WS_initial | E_WS_buffer | E_WS_equivalence | E_WS_excessBase
| E_SW_initial | E_SW_excessAcid | E_SW_equivalence | E_SW_buffer
| E_default.

Definition getExplanation_body (vol : R) (acidType baseType : ElectrolyteType)
  : Block (ExplanationSite * Explanation) :=
  let vAcid := ACID_VOL_INITIAL in
  let isEq := Math.abs (vol - vAcid) <. 0.1 in
  let isPre := vol <. vAcid in
  let isPost := vol >. vAcid in
  (* Case 1: Strong Acid + Strong Base *)
  (IF ElectrolyteType_eqb acidType strong && ElectrolyteType_eqb baseType strong THEN
     (IF vol ===. 0 THEN
        ret (E_SS_initial,
             {| title := "初始狀態 (Initial)";
                formula := "[H⁺] = Cₐ";
                desc := "強酸完全解離，氫離子濃度直接等於酸的莫耳濃度。" |})) ;;
     (IF isPre THEN
        ret (E_SS_excessAcid,
             {| title := "酸過量 (Excess Acid)";
                formula := "[H⁺] = (Nₐ - Nᵦ) / Vₜ";
                desc := "剩餘的酸莫耳數 (Nₐ-Nᵦ) 除以當前總體積 (Vₜ)，即可得氫離子濃度。" |})) ;;
     (IF isEq THEN
        ret (E_SS_equivalence,
             {| title := "當量點 (Equivalence Point)";
                formula := "[H⁺] = 10⁻⁷";
                desc := "強酸強鹼完全中和，溶液呈中性。" |})) ;;
     (IF isPost THEN
        ret (E_SS_excessBase,
             {| title := "鹼過量 (Excess Base)";
                formula := "[OH⁻] = (Nᵦ - Nₐ) / Vₜ";
                desc := "剩餘的鹼莫耳數除以總體積，求得 [OH⁻]，再推算 pH。" |}))) ;;
  (* Case 2: Weak Acid + Strong Base *)
  (IF ElectrolyteType_eqb acidType weak && ElectrolyteType_eqb baseType strong THEN
     (IF vol ===. 0 THEN
        ret (E_WS_initial,
             {| title := "弱酸解離 (Weak Acid)";
                formula := "[H⁺] ≈ √(Kₐ × Cₐ)";
                desc := "弱酸部分解離，濃度為 Kₐ 與酸濃度的幾何平均數。" |})) ;;
     (IF isPre THEN
        ret (E_WS_buffer,
             {| title := "緩衝溶液 (Buffer Region)";
                formula := "[H⁺] = Kₐ × (Cₐ / Cₛ)";
                desc := "剩餘弱酸與生成的鹽形成緩衝對。氫離子濃度由 Kₐ 乘上 [酸]/[鹽] 比例決定。" |})) ;;
     (IF isEq THEN
        ret (E_WS_equivalence,
             {| title := "當量點 (Hydrolysis)";
                formula := "[OH⁻] ≈ √(Kₕ × Cₛ)";
                desc := "完全中和生成弱鹼性鹽。鹽類水解產生 OH⁻，需使用 Kₕ (即 Kw/Ka) 計算。" |})) ;;
     (IF isPost THEN
        ret (E_WS_excessBase,
             {| title := "強鹼過量";
                formula := "[OH⁻] ≈ (Nᵦ - Nₐ) / Vₜ";
                desc := "強鹼完全解離，直接由過量的強鹼決定 [OH⁻]。" |}))) ;;
  (* Case 3: Strong Acid + Weak Base *)
  (IF ElectrolyteType_eqb acidType strong && ElectrolyteType_eqb baseType weak THEN
     (IF vol ===. 0 THEN
        ret (E_SW_initial,
             {| title := "強酸初始";
                formula := "[H⁺] = Cₐ";
                desc := "強酸完全解離。" |})) ;;
     (IF isPre THEN
        ret (E_SW_excessAcid,
             {| title := "強酸過量";
                formula := "[H⁺] = (Nₐ - Nᵦ) / Vₜ";
                desc := "強酸主導溶液酸鹼值。" |})) ;;
     (IF isEq THEN
        ret (E_SW_equivalence,
             {| title := "當量點 (Hydrolysis)";
                formula := "[H⁺] ≈ √(Kₕ × Cₛ)";
                desc := "完全中和生成弱酸性鹽。鹽類水解產生 H⁺，使用 Kₕ (即 Kw/Kb) 計算。" |})) ;;
     (IF isPost THEN
        ret (E_SW_buffer,
             {| title := "緩衝溶液 (Buffer Region)";
                formula := "[OH⁻] = K₆ × (C₆ / Cₛ)";
                desc := "過量弱鹼與其共軛酸形成緩衝。OH⁻ 濃度由 Kb 乘上 [鹼]/[鹽] 比例決定。" |}))).

(** The three blocks followed by the last statement of the function, the
    [return] of the weak/weak card. *)
Definition getExplanation_traced (vol : R) (acidType baseType : ElectrolyteType)
  : ExplanationSite * Explanation :=
  returned (getExplanation_body vol acidType baseType)
    (E_default,
     {| title := "複雜系統";
        formula := "-";
        desc := "弱酸弱鹼滴定計算較為複雜。" |}).

Definition getExplanation (vol : R) (acidType baseType : ElectrolyteType) : Explanation :=
  snd (getExplanation_traced vol acidType baseType).

Definition explanationSite (vol : R) (acidType baseType : ElectrolyteType) : ExplanationSite :=
  fst (getExplanation_traced vol acidType baseType).

(** ** What the component draws *)

Definition explanation (state : TitrationState) : Explanation :=
  getExplanation (addedBaseVol state) (acidType state) (baseType state).

Definition selectedInd (state : TitrationState) : IndicatorInfo :=
  INDICATORS (indicator state).

(** Coordinate mapping for the graph (SVG 300x200): 0-50 mL onto 40-280 px,
    0-14 pH onto 180-20 px. *)
Definition mapX (v : R) : R := 40 + (v / 50) * 240.
Definition mapY (ph : R) : R := 180 - (ph / 14) * 160.

(** The coordinates of the theoretical curve, one pair for each graph point
    (the component joins them into the [points] string of a polyline). *)
Definition polylinePoints (points : list GraphPoint) : list (R * R) :=
  map (fun p => (mapX (v p), mapY (ph p))) points.

(** The indicator range band behind the curve. *)
Definition indRangeYStart (state : TitrationState) : R :=
  mapY (rangeHigh (selectedInd state)).
Definition indRangeHeight (state : TitrationState) : R :=
  mapY (rangeLow (selectedInd state)) - indRangeYStart state.

(** The liquid left in the burette: a rectangle inside the 200 px tube. *)
Definition buretteLiquidY (state : TitrationState) : R := addedBaseVol state * 4.
Definition buretteLiquidHeight (state : TitrationState) : R := 200 - addedBaseVol state * 4.

(** The current point marker. *)
Definition markerX (state : TitrationState) : R := mapX (addedBaseVol state).
Definition markerY (state : TitrationState) : R := mapY (currentPH state).

(** The equivalence point marker: drawn unless both electrolytes are weak, at
    25 mL and at a pH written in the component. *)
Definition eqPointShown (state : TitrationState) : bool :=
  negb (ElectrolyteType_eqb (acidType state) weak && ElectrolyteType_eqb (baseType state) weak).
Definition eqPointPH (state : TitrationState) : R :=
  if ElectrolyteType_eqb (acidType state) weak then 8.72
  else if ElectrolyteType_eqb (baseType state) weak then 5.28
  else 7.0.
Definition eqPointX : R := mapX 25.
Definition eqPointY (state : TitrationState) : R := mapY (eqPointPH state).

(** ** Vocabulary of the further properties *)

(** The phase of the titration a return statement speaks for. *)
Inductive Phase : Type := Initial | BeforeEquivalence | AtEquivalence | AfterEquivalence.

Definition site_phase (s : ReturnSite) : option Phase :=
  match s with
  | WS_initial | SW_initial | WW_initial => Some Initial
  | SS_excessAcid | WS_buffer | SW_excessAcid | WW_bufferAcid => Some BeforeEquivalence
  | SS_equivalence | WS_equivalence | SW_equivalence | WW_equivalence => Some AtEquivalence
  | SS_excessBase | WS_excessBase | SW_buffer | WW_bufferBase => Some AfterEquivalence
  | Fallback => None
  end.

Definition explanation_phase (s : ExplanationSite) : option Phase :=
  match s with
  | E_SS_initial | E_WS_initial | E_SW_initial => Some Initial
  | E_SS_excessAcid | E_WS_buffer | E_SW_excessAcid => Some BeforeEquivalence
  | E_SS_equivalence | E_WS_equivalence | E_SW_equivalence => Some AtEquivalence
  | E_SS_excessBase | E_WS_excessBase | E_SW_buffer => Some AfterEquivalence
  | E_default => None
  end.

(** The rectangle of the graph in which the axes are drawn. *)
Definition in_plot_area (xy : R * R) : Prop :=
  40 <= fst xy <= 280 /\ 20 <= snd xy <= 180.

(** * The other components *)

(** ** More JavaScript arithmetic *)

Definition num_ge (x y : R) : bool := num_le y x.
Notation "x >=. y" := (num_ge x y) (at level 70, no associativity).

(** Truncation towards zero, and the remainder operator [%], whose result has
    the sign of the dividend. *)
Definition js_trunc (x : R) : Z :=
  if Rle_dec 0 x then Int_part x else (- Int_part (- x))%Z.
Definition js_rem (a b : R) : R := a - b * IZR (js_trunc (a / b)).
Notation "a %. b" := (js_rem a b) (at level 40, left associativity).

(** [Math.ceil]. *)
Definition Math_ceil (x : R) : R := IZR (- Int_part (- x)).

(** [Position] of [types.ts]. *)
Module Types.

Record Position : Type := mkPosition { x : R; y : R }.

End Types.

(** ** Silver mirror reaction ([SilverMirrorReaction.tsx]) *)

Module SilverMirrorReaction.

Inductive Reagent : Type := Reagent_A | Reagent_B | Reagent_C | Reagent_D.

Record DropState : Type := mkDropState {
  A : R; (* AgNO3 *)
  B : R; (* NaOH *)
  C : R; (* Ammonia *)
  D : R  (* Glucose *)
}.

Record State : Type := mkState {
  drops : DropState;
  isCapped : bool;
  shakeSpeed : R;
  reactionProgress : R;
  warning : option string
}.

Definition initialState : State :=
  {| drops := {| A := 0; B := 0; C := 0; D := 0 |};
     isCapped := false;
     shakeSpeed := 0;
     reactionProgress := 0;
     warning := None |}.

(** Derived logic, recomputed at each render. *)

Definition totalDrops (s : State) : R :=
  A (drops s) + B (drops s) + C (drops s) + D (drops s).

Definition liquidHeightPercent (s : State) : R :=
  Math.min ((totalDrops s / 50) * 100) 90.

Definition hasReactantsForPpt (s : State) : bool :=
  (A (drops s) >. 0) && (B (drops s) >. 0).

Definition neededAmmonia (s : State) : R := A (drops s) * 1.2.

Definition ammoniaRatio (s : State) : R :=
  if neededAmmonia s >. 0 then Math.min (C (drops s) / neededAmmonia s) 1 else 1.

Definition baseTurbidity (s : State) : R :=
  if hasReactantsForPpt s then Math.min (A (drops s)) (B (drops s)) / 10 else 0.

Definition turbidity (s : State) : R :=
  Math.max 0 (baseTurbidity s * (1 - ammoniaRatio s)).

(** On the exact values the turbidity of 7 drops of silver nitrate, 6 of
    hydroxide and 7 of ammonia is 0.1, which is not above 0.1; binary64
    arithmetic gives 0.10000000000000005 there, which is. *)
Definition isCloudy (s : State) : bool := turbidity s >. 0.1.

Definition isClearComplex (s : State) : bool :=
  hasReactantsForPpt s && negb (isCloudy s).

Definition canReact (s : State) : bool :=
  isClearComplex s && (D (drops s) >. 0).

(** A string or [null] used as a condition. *)
Definition truthy (w : option string) : bool :=
  match w with
  | Some EmptyString => false
  | Some _ => true
  | None => false
  end.

(** One run of the animation callback: the state after the updates it
    requests, all computed from the values of the render it belongs to.  The
    visual shake offset, which reads the clock, is left out. *)
Definition animate (s : State) : State :=
  let unsafe := (shakeSpeed s >. 0) && negb (isCapped s) in
  {| drops := drops s;
     isCapped := isCapped s;
     shakeSpeed := if unsafe then 0 else shakeSpeed s;
     reactionProgress :=
       if canReact s && isCapped s && (shakeSpeed s >. 0) && (reactionProgress s <. 100)
       then
         let rate := (0.05 * shakeSpeed s) / (totalDrops s + 5) in
         Math.min (reactionProgress s + rate) 100
       else reactionProgress s;
     warning :=
       if unsafe then
         Some "警告：危險！請先蓋上蓋子再搖晃 (Danger: Cap the vial before shaking!)"
       else if truthy (warning s) && isCapped s then None
       else warning s |}.

(** Handlers. *)

Definition addOne (type : Reagent) (prev : DropState) : DropState :=
  match type with
  | Reagent_A => {| A := A prev + 1; B := B prev; C := C prev; D := D prev |}
  | Reagent_B => {| A := A prev; B := B prev + 1; C := C prev; D := D prev |}
  | Reagent_C => {| A := A prev; B := B prev; C := C prev + 1; D := D prev |}
  | Reagent_D => {| A := A prev; B := B prev; C := C prev; D := D prev + 1 |}
  end.

Definition addDrop (type : Reagent) (s : State) : State :=
  if isCapped s then
    {| drops := drops s;
       isCapped := isCapped s;
       shakeSpeed := shakeSpeed s;
       reactionProgress := reactionProgress s;
       warning := Some "請先打開蓋子才能滴加試劑 (Uncap first)" |}
  else
    {| drops := addOne type (drops s);
       isCapped := isCapped s;
       shakeSpeed := shakeSpeed s;
       reactionProgress := reactionProgress s;
       warning := None |}.

Definition handleReset (s : State) : State :=
  {| drops := {| A := 0; B := 0; C := 0; D := 0 |};
     isCapped := false;
     shakeSpeed := 0;
     reactionProgress := 0;
     warning := None |}.

Definition toggleCap (s : State) : State :=
  {| drops := drops s;
     isCapped := negb (isCapped s);
     shakeSpeed := shakeSpeed s;
     reactionProgress := reactionProgress s;
     warning := warning s |}.

Definition setShake (value : R) (s : State) : State :=
  {| drops := drops s;
     isCapped := isCapped s;
     shakeSpeed := value;
     reactionProgress := reactionProgress s;
     warning := warning s |}.

(** The controls, the slider delivering a number from 0 to 100, and the
    animation frame. *)
Inductive Event : Type :=
| AddDrop (type : Reagent)
| ToggleCap
| Shake (value : R)
| Reset
| Frame.

Definition handle (e : Event) (s : State) : State :=
  match e with
  | AddDrop type => addDrop type s
  | ToggleCap => toggleCap s
  | Shake value => setShake value s
  | Reset => handleReset s
  | Frame => animate s
  end.

Inductive reachable : State -> Prop :=
| reachable_initial : reachable initialState
| reachable_handle (e : Event) (s : State) :
    reachable s ->
    (forall value, e = Shake value -> 0 <= value <= 100) ->
    reachable (handle e s).

(** Colours and visuals. *)

Definition getLiquidColor (s : State) : string :=
  returned
    ((IF totalDrops s ===. 0 THEN ret "transparent") ;;
     (IF isCloudy s THEN ret "#3f2e18") ;;
     (IF (A (drops s) >. 0) && (B (drops s) ===. 0) THEN ret "#e2e8f0"))
    "#f1f5f9".

Definition liquidY (s : State) : R := 350 - (liquidHeightPercent s / 100) * 250.

Definition suggestedC (s : State) : R := Math_ceil (A (drops s) * 1.2).

Definition statusLabel (s : State) : string :=
  if reactionProgress s >. 90 then "銀鏡反應完成！ (Mirror Formed!)"
  else if isCloudy s then "混濁沉澱 (Cloudy Ppt)"
  else if isClearComplex s then "澄清錯離子溶液 (Clear)"
  else "溶液 (Solution)".

End SilverMirrorReaction.

(** ** Displacement reaction ([DisplacementReaction]) *)

Module DisplacementReaction.

Definition ANIMATION_SPEED : R := 0.0015.

Record State : Type := mkState {
  isPlaying : bool;
  progress : R (* 0 to 1 represents reaction completion *)
}.

Definition initialState : State := {| isPlaying := false; progress := 0 |}.

(** The updater that the animation callback passes to [setProgress]. *)
Definition animate (prev : R) : R :=
  if prev >=. 1 then 1 else prev + ANIMATION_SPEED.

(** The start/pause button (disabled once [progress >= 1]), the reset button
    and the animation frame. *)
Inductive Event : Type := TogglePlay | Reset | Frame.

Definition handle (e : Event) (s : State) : State :=
  match e with
  | TogglePlay =>
      if progress s >=. 1 then s
      else {| isPlaying := negb (isPlaying s); progress := progress s |}
  | Reset => {| isPlaying := isPlaying s; progress := 0 |}
  | Frame => {| isPlaying := isPlaying s; progress := animate (progress s) |}
  end.

Inductive reachable : State -> Prop :=
| reachable_initial : reachable initialState
| reachable_handle (e : Event) (s : State) : reachable s -> reachable (handle e s).

(** Solution opacity, and the opacities derived from it for the label and
    for the copper ions. *)
Definition solutionOpacity (s : State) : R := 0.6 * (1 - progress s) + 0.05.
Definition labelOpacity (s : State) : R := solutionOpacity s + 0.3.
Definition ionFillOpacity (s : State) : R := solutionOpacity s + 0.2.
Definition coatingOpacity (s : State) : R := progress s.

Definition solutionLabel (s : State) : string :=
  if progress s <. 0.8 then "CuSO₄(aq)" else "ZnSO₄(aq)".

End DisplacementReaction.

(** ** Galvanic cell ([GalvanicCell]) *)

Module GalvanicCell.
Import Types.

Definition ANIMATION_SPEED : R := 0.002.

Record State : Type := mkState { isPlaying : bool; time : R }.

Definition initialState : State := {| isPlaying := false; time := 0 |}.

Definition animate (prevTime : R) : R := prevTime + ANIMATION_SPEED.

Inductive Event : Type := TogglePlay | Reset | Frame.

Definition handle (e : Event) (s : State) : State :=
  match e with
  | TogglePlay => {| isPlaying := negb (isPlaying s); time := time s |}
  | Reset => {| isPlaying := isPlaying s; time := 0 |}
  | Frame => {| isPlaying := isPlaying s; time := animate (time s) |}
  end.

Inductive reachable : State -> Prop :=
| reachable_initial : reachable initialState
| reachable_handle (e : Event) (s : State) : reachable s -> reachable (handle e s).

Definition deformation (s : State) : R := Math.min (time s * 15) 30.

(** Position along the wire: up (100,120 -> 100,40), right (100,40 ->
    500,40), down (500,40 -> 500,120). *)
Definition getWirePos (t : R) : Position :=
  let p := t %. 1 in
  returned
    ((IF p <. 0.14 THEN ret {| x := 100; y := 120 - (p / 0.14) * 80 |}) ;;
     (IF p <. 0.86 THEN ret {| x := 100 + ((p - 0.14) / 0.72) * 400; y := 40 |}))
    {| x := 500; y := 40 + ((p - 0.86) / 0.14) * 80 |}.

(** Position along the salt bridge, two quadratic Bezier arcs. *)
Definition getBridgePos (t : R) (reverse : bool) : Position :=
  let p := t %. 1 in
  let p := if reverse then 1 - p else p in
  let xy :=
    if p <. 0.5 then
      let localT := p * 2 in
      let lt1 := 1 - localT in
      (lt1 * lt1 * 180 + 2 * lt1 * localT * 180 + localT * localT * 300,
       lt1 * lt1 * 200 + 2 * lt1 * localT * 100 + localT * localT * 100)
    else
      let localT := (p - 0.5) * 2 in
      let lt1 := 1 - localT in
      (lt1 * lt1 * 300 + 2 * lt1 * localT * 420 + localT * localT * 420,
       lt1 * lt1 * 100 + 2 * lt1 * localT * 100 + localT * localT * 200) in
  {| x := fst xy; y := snd xy + 10 |}.

(** The electrodes: the zinc one is drawn from x = 80, the copper one ends at
    its outline's right edge. *)
Definition anodeWidth (s : State) : R := Math.max 10 (40 - deformation s).
Definition cathodeX (s : State) : R := 480 - deformation s.
Definition cathodeWidth (s : State) : R := 40 + deformation s.

(** The particles. *)
Definition electronPos (s : State) (offset : R) : Position :=
  getWirePos (time s + offset).

Definition znIonX (s : State) (offset : R) : R :=
  let t := (time s + offset) %. 1 in
  let currentEdge := 80 + Math.max 10 (40 - deformation s) in
  currentEdge + t * 40.

Definition cuIonX (s : State) (offset : R) : R :=
  let t := (time s + offset) %. 1 in
  let currentEdge := 480 - deformation s in
  let startX := 430 in
  let dist := currentEdge - startX in
  startX + t * dist.

Definition anionPos (s : State) (offset : R) : Position :=
  let rawT := (time s * 0.5 + offset) %. 1 in
  getBridgePos rawT true.

Definition cationPos (s : State) (offset : R) : Position :=
  let rawT := (time s * 0.5 + offset) %. 1 in
  getBridgePos rawT false.

End GalvanicCell.

(** ** Electroplating cell ([ElectroplatingCell.tsx]) *)

Module ElectroplatingCell.
Import Types.

Definition ANIMATION_SPEED : R := 0.002.

Record State : Type := mkState { isPlaying : bool; time : R }.

Definition initialState : State := {| isPlaying := false; time := 0 |}.

Definition animate (prevTime : R) : R := prevTime + ANIMATION_SPEED.

Inductive Event : Type := TogglePlay | Reset | Frame.

Definition handle (e : Event) (s : State) : State :=
  match e with
  | TogglePlay => {| isPlaying := negb (isPlaying s); time := time s |}
  | Reset => {| isPlaying := isPlaying s; time := 0 |}
  | Frame => {| isPlaying := isPlaying s; time := animate (time s) |}
  end.

Inductive reachable : State -> Prop :=
| reachable_initial : reachable initialState
| reachable_handle (e : Event) (s : State) : reachable s -> reachable (handle e s).

Definition deformation (s : State) : R := Math.min (time s * 10) 15.

(** Path: 180,150 -> 180,60 -> 280,60. *)
Definition getWirePosLeft (t : R) : Position :=
  let p := t %. 1 in
  if p <. 0.47 then {| x := 180; y := 150 - (p / 0.47) * 90 |}
  else {| x := 180 + ((p - 0.47) / 0.53) * 100; y := 60 |}.

(** Path: 320,60 -> 420,60 -> 420,150. *)
Definition getWirePosRight (t : R) : Position :=
  let p := t %. 1 in
  if p <. 0.53 then {| x := 320 + (p / 0.53) * 100; y := 60 |}
  else {| x := 420; y := 60 + ((p - 0.53) / 0.47) * 90 |}.

(** The copper anode, drawn from x = 160, and the plating layer around the
    graphite cathode, which occupies x = 400 to 440. *)
Definition anodeWidth (s : State) : R := Math.max 10 (40 - deformation s).
Definition platingX (s : State) : R := 400 - deformation s.
Definition platingWidth (s : State) : R := 40 + deformation s * 2.

(** The copper ions leaving the anode and those reaching the cathode. *)
Definition oxIonX (s : State) (offset : R) : R :=
  let t := (time s + offset) %. 1 in
  let startX := 160 + Math.max 10 (40 - deformation s) in
  startX + t * 50.

Definition redIonX (s : State) (offset : R) : R :=
  let t := (time s + offset) %. 1 in
  let targetX := 400 - deformation s in
  let startX := targetX - 60 in
  startX + t * 60.

End ElectroplatingCell.

(** ** Vocabulary of the properties of the animated components *)

(** On the wire of the galvanic cell: 100,120 - 100,40 - 500,40 - 500,120. *)
Definition on_galvanic_wire (pos : Types.Position) : Prop :=
  (Types.x pos = 100 /\ 40 <= Types.y pos <= 120)
  \/ (Types.y pos = 40 /\ 100 <= Types.x pos <= 500)
  \/ (Types.x pos = 500 /\ 40 <= Types.y pos <= 120).

(** On the wire from the anode to the battery: 180,150 - 180,60 - 280,60. *)
Definition on_left_wire (pos : Types.Position) : Prop :=
  (Types.x pos = 180 /\ 60 <= Types.y pos <= 150)
  \/ (Types.y pos = 60 /\ 180 <= Types.x pos <= 280).

(** On the wire from the battery to the cathode: 320,60 - 420,60 - 420,150. *)
Definition on_right_wire (pos : Types.Position) : Prop :=
  (Types.y pos = 60 /\ 320 <= Types.x pos <= 420)
  \/ (Types.x pos = 420 /\ 60 <= Types.y pos <= 150).

(** * Auxiliary facts *)

(** ** Guards *)

Lemma num_lt_true (x y : R) : x < y -> (x <. y) = true.
Proof. intros H; unfold num_lt; destruct (Rlt_dec x y); [reflexivity | contradiction]. Qed.

Lemma num_lt_false (x y : R) : y <= x -> (x <. y) = false.
Proof. intros H; unfold num_lt; destruct (Rlt_dec x y); [lra | reflexivity]. Qed.

Lemma num_gt_true (x y : R) : y < x -> (x >. y) = true.
Proof. apply num_lt_true. Qed.

Lemma num_gt_false (x y : R) : x <= y -> (x >. y) = false.
Proof. apply num_lt_false. Qed.

Lemma num_le_true (x y : R) : x <= y -> (x <=. y) = true.
Proof. intros H; unfold num_le; destruct (Rle_dec x y); [reflexivity | contradiction]. Qed.

Lemma num_le_false (x y : R) : y < x -> (x <=. y) = false.
Proof. intros H; unfold num_le; destruct (Rle_dec x y); [lra | reflexivity]. Qed.

Lemma num_eq_true (x y : R) : x = y -> (x ===. y) = true.
Proof. intros H; unfold num_eq; destruct (Req_EM_T x y); [reflexivity | contradiction]. Qed.

Lemma num_eq_false (x y : R) : x <> y -> (x ===. y) = false.
Proof. intros H; unfold num_eq; destruct (Req_EM_T x y); [contradiction | reflexivity]. Qed.

Lemma abs_lt_true (x eps : R) : - eps < x < eps -> (Math.abs x <. eps) = true.
Proof.
  intros H. apply num_lt_true. unfold Math.abs, Rabs.
  destruct (Rcase_abs x); lra.
Qed.

Lemma abs_lt_false (x eps : R) : eps <= x \/ x <= - eps -> (Math.abs x <. eps) = false.
Proof.
  intros H. apply num_lt_false. unfold Math.abs, Rabs.
  destruct (Rcase_abs x); lra.
Qed.

Ltac unfold_consts :=
  unfold ACID_VOL_INITIAL, ACID_CONC, BASE_CONC, KA_ACETIC, KB_AMMONIA, KW in *.

(** ** Decimal logarithm *)

Lemma ln10_pos : 0 < ln 10.
Proof. rewrite <- ln_1. apply ln_increasing; lra. Qed.

Lemma log10_1 : Math.log10 1 = 0.
Proof. unfold Math.log10. rewrite ln_1. unfold Rdiv. ring. Qed.

Lemma log10_10 : Math.log10 10 = 1.
Proof. unfold Math.log10. field. pose proof ln10_pos. lra. Qed.

Lemma log10_lt (x y : R) : 0 < x -> x < y -> Math.log10 x < Math.log10 y.
Proof.
  intros Hx Hxy. unfold Math.log10.
  apply Rmult_lt_compat_r.
  - apply Rinv_0_lt_compat, ln10_pos.
  - apply ln_increasing; assumption.
Qed.

Lemma log10_le (x y : R) : 0 < x -> x <= y -> Math.log10 x <= Math.log10 y.
Proof.
  intros Hx [Hlt | Heq].
  - left. apply log10_lt; assumption.
  - right. now rewrite Heq.
Qed.

Lemma log10_inj (x y : R) : 0 < x -> 0 < y -> Math.log10 x = Math.log10 y -> x = y.
Proof.
  intros Hx Hy H.
  destruct (Rtotal_order x y) as [Hlt | [Heq | Hgt]]; [| assumption |].
  - pose proof (log10_lt x y Hx Hlt). lra.
  - pose proof (log10_lt y x Hy Hgt). lra.
Qed.

Lemma log10_mult (x y : R) : 0 < x -> 0 < y ->
  Math.log10 (x * y) = Math.log10 x + Math.log10 y.
Proof.
  intros Hx Hy. unfold Math.log10. rewrite ln_mult by assumption.
  field. pose proof ln10_pos. lra.
Qed.

Lemma log10_inv (x : R) : 0 < x -> Math.log10 (/ x) = - Math.log10 x.
Proof.
  intros Hx. unfold Math.log10. rewrite ln_Rinv by assumption.
  field. pose proof ln10_pos. lra.
Qed.

Lemma log10_div (x y : R) : 0 < x -> 0 < y ->
  Math.log10 (x / y) = Math.log10 x - Math.log10 y.
Proof.
  intros Hx Hy. unfold Rdiv.
  rewrite log10_mult by (try apply Rinv_0_lt_compat; assumption).
  rewrite log10_inv by assumption. ring.
Qed.

Lemma log10_pow (x : R) (n : nat) : 0 < x -> Math.log10 (x ^ n) = INR n * Math.log10 x.
Proof.
  intros Hx. unfold Math.log10. rewrite ln_pow by assumption.
  field. pose proof ln10_pos. lra.
Qed.

Lemma log10_pow10 (n : nat) : Math.log10 (10 ^ n) = INR n.
Proof. rewrite log10_pow by lra. rewrite log10_10. ring. Qed.

Lemma log10_sqrt (x : R) : 0 < x -> Math.log10 (Math.sqrt x) = Math.log10 x / 2.
Proof.
  intros Hx. unfold Math.sqrt.
  assert (Hs : 0 < sqrt x) by (apply sqrt_lt_R0; assumption).
  assert (H : Math.log10 x = Math.log10 (sqrt x) + Math.log10 (sqrt x)).
  { rewrite <- log10_mult by assumption. now rewrite sqrt_sqrt by lra. }
  lra.
Qed.

(** Rational enclosures: [x ^ q * 10 ^ m] against [10 ^ p] bounds
    [q * log10 x + m] against [p]. *)
Lemma log10_upper (x : R) (q m p : nat) :
  0 < x -> x ^ q * 10 ^ m < 10 ^ p ->
  INR q * Math.log10 x + INR m < INR p.
Proof.
  intros Hx H.
  assert (Hq : 0 < x ^ q) by (apply pow_lt; assumption).
  assert (Hm : 0 < 10 ^ m) by (apply pow_lt; lra).
  rewrite <- log10_pow by assumption.
  rewrite <- (log10_pow10 m), <- (log10_pow10 p).
  rewrite <- log10_mult by assumption.
  apply log10_lt; [apply Rmult_lt_0_compat |]; assumption.
Qed.

Lemma log10_lower (x : R) (q m p : nat) :
  0 < x -> 10 ^ p < x ^ q * 10 ^ m ->
  INR p < INR q * Math.log10 x + INR m.
Proof.
  intros Hx H.
  assert (Hq : 0 < x ^ q) by (apply pow_lt; assumption).
  assert (Hm : 0 < 10 ^ m) by (apply pow_lt; lra).
  rewrite <- log10_pow by assumption.
  rewrite <- (log10_pow10 m), <- (log10_pow10 p).
  rewrite <- log10_mult by assumption.
  apply log10_lt; [apply pow_lt; lra | assumption].
Qed.

(** Powers of ten as bounds. *)
Lemma log10_ge_neg (x : R) (n : nat) : / 10 ^ n <= x -> - INR n <= Math.log10 x.
Proof.
  intros H.
  assert (Hp : 0 < 10 ^ n) by (apply pow_lt; lra).
  rewrite <- (log10_pow10 n), <- log10_inv by assumption.
  apply log10_le; [apply Rinv_0_lt_compat |]; assumption.
Qed.

Lemma log10_le_neg (x : R) (n : nat) : 0 < x -> x <= / 10 ^ n -> Math.log10 x <= - INR n.
Proof.
  intros Hx H.
  assert (Hp : 0 < 10 ^ n) by (apply pow_lt; lra).
  rewrite <- (log10_pow10 n), <- log10_inv by assumption.
  apply log10_le; assumption.
Qed.

Lemma log10_le_pos (x : R) (n : nat) : 0 < x -> x <= 10 ^ n -> Math.log10 x <= INR n.
Proof.
  intros Hx H. rewrite <- (log10_pow10 n). apply log10_le; assumption.
Qed.

(** ** Quotients *)

Lemma quotient_ge (a n d : R) : 0 < d -> a * d <= n -> a <= n / d.
Proof.
  intros Hd H. unfold Rdiv. apply Rmult_le_reg_r with d; [assumption |].
  rewrite Rmult_assoc, Rinv_l by lra. lra.
Qed.

Lemma quotient_le (a n d : R) : 0 < d -> n <= a * d -> n / d <= a.
Proof.
  intros Hd H. unfold Rdiv. apply Rmult_le_reg_r with d; [assumption |].
  rewrite Rmult_assoc, Rinv_l by lra. lra.
Qed.


(** [log10_upper] and [log10_lower] at a concrete positive [x]; the side
    conditions are comparisons of rational constants. *)
Ltac log10_upper_at x q m p H :=
  pose proof (log10_upper x q m p ltac:(unfold_consts; lra) ltac:(unfold_consts; lra)) as H;
  rewrite !INR_IZR_INZ in H; simpl Z.of_nat in H.

Ltac log10_lower_at x q m p H :=
  pose proof (log10_lower x q m p ltac:(unfold_consts; lra) ltac:(unfold_consts; lra)) as H;
  rewrite !INR_IZR_INZ in H; simpl Z.of_nat in H.

(** ** Which return statement fires where *)

Ltac open_body :=
  unfold calculatePH_traced, calculatePH_body;
  cbv beta iota zeta delta [ElectrolyteType_eqb andb].

Ltac step_body := cbv beta iota zeta delta [stmt_seq ret fallthrough returned].

Ltac guard_true := first
  [ rewrite num_lt_true by (unfold_consts; lra)
  | rewrite num_gt_true by (unfold_consts; lra)
  | rewrite num_eq_true by (unfold_consts; lra)
  | rewrite abs_lt_true by (unfold_consts; lra) ].

Ltac guard_false := first
  [ rewrite num_eq_false by (unfold_consts; lra)
  | rewrite abs_lt_false by (unfold_consts; lra)
  | rewrite num_lt_false by (unfold_consts; lra)
  | rewrite num_gt_false by (unfold_consts; lra) ].

Ltac run_body :=
  open_body;
  repeat (first [ guard_true | guard_false ];
          step_body);
  try reflexivity.

Section ReturnSites.

Variable vBase : R.

Let vAcid := ACID_VOL_INITIAL.
Let cAcid := ACID_CONC.
Let molesA := ACID_VOL_INITIAL * ACID_CONC.
Let molesB := vBase * BASE_CONC.
Let totalVol := ACID_VOL_INITIAL + vBase.

Lemma traced_SS_excessAcid : vBase < 25 ->
  calculatePH_traced vBase strong strong
  = (SS_excessAcid, - Math.log10 ((molesA - molesB) / totalVol)).
Proof. intros H. run_body. Qed.

Lemma traced_SS_equivalence : 25 <= vBase < 25 + 1e-8 ->
  calculatePH_traced vBase strong strong = (SS_equivalence, 7.0).
Proof. intros H. run_body. Qed.

Lemma traced_SS_excessBase : 25 + 1e-8 <= vBase ->
  calculatePH_traced vBase strong strong
  = (SS_excessBase, 14.0 - - Math.log10 ((molesB - molesA) / totalVol)).
Proof. intros H. run_body. Qed.

Lemma traced_WS_initial : vBase = 0 ->
  calculatePH_traced vBase weak strong
  = (WS_initial, - Math.log10 (Math.sqrt (KA_ACETIC * cAcid))).
Proof. intros H. run_body. Qed.

Lemma traced_WS_buffer : vBase <> 0 -> vBase < 25 ->
  calculatePH_traced vBase weak strong
  = (WS_buffer, - Math.log10 KA_ACETIC + Math.log10 (molesB / (molesA - molesB))).
Proof. intros H0 H. run_body. Qed.

Lemma traced_WS_equivalence : 25 <= vBase < 25 + 1e-8 ->
  calculatePH_traced vBase weak strong
  = (WS_equivalence,
     14.0 - - Math.log10 (Math.sqrt (KW / KA_ACETIC * (molesA / totalVol)))).
Proof. intros H. run_body. Qed.

Lemma traced_WS_excessBase : 25 + 1e-8 <= vBase ->
  calculatePH_traced vBase weak strong
  = (WS_excessBase, 14.0 - - Math.log10 ((molesB - molesA) / totalVol)).
Proof. intros H. run_body. Qed.

Lemma traced_SW_initial : vBase = 0 ->
  calculatePH_traced vBase strong weak = (SW_initial, - Math.log10 cAcid).
Proof. intros H. run_body. Qed.

Lemma traced_SW_excessAcid : vBase <> 0 -> vBase < 25 ->
  calculatePH_traced vBase strong weak
  = (SW_excessAcid, - Math.log10 ((molesA - molesB) / totalVol)).
Proof. intros H0 H. run_body. Qed.

Lemma traced_SW_equivalence : 25 <= vBase < 25 + 1e-8 ->
  calculatePH_traced vBase strong weak
  = (SW_equivalence,
     - Math.log10 (Math.sqrt (KW / KB_AMMONIA * (molesA / totalVol)))).
Proof. intros H. run_body. Qed.

Lemma traced_SW_buffer : 25 + 1e-8 <= vBase ->
  calculatePH_traced vBase strong weak
  = (SW_buffer,
     14.0 - - Math.log10 KB_AMMONIA + Math.log10 ((molesB - molesA) / molesA)).
Proof. intros H. run_body. Qed.

Lemma traced_WW_initial : vBase = 0 ->
  calculatePH_traced vBase weak weak
  = (WW_initial, - Math.log10 (Math.sqrt (KA_ACETIC * cAcid))).
Proof. intros H. run_body. Qed.

Lemma traced_WW_bufferAcid : vBase <> 0 -> vBase < 25 ->
  calculatePH_traced vBase weak weak
  = (WW_bufferAcid, - Math.log10 KA_ACETIC + Math.log10 (molesB / (molesA - molesB))).
Proof. intros H0 H. run_body. Qed.

Lemma traced_WW_equivalence : 25 <= vBase < 25 + 1e-8 ->
  calculatePH_traced vBase weak weak
  = (WW_equivalence,
     (- Math.log10 KA_ACETIC + (14.0 - - Math.log10 KB_AMMONIA)) / 2).
Proof. intros H. run_body. Qed.

Lemma traced_WW_bufferBase : 25 + 1e-8 <= vBase ->
  calculatePH_traced vBase weak weak
  = (WW_bufferBase,
     14.0 - - Math.log10 KB_AMMONIA + Math.log10 ((molesB - molesA) / molesA)).
Proof. intros H. run_body. Qed.

End ReturnSites.

(** * The return statement taken by [calculatePH] *)

Lemma returnSite_cases (vBase : R) :
  0 <= vBase ->
  { vBase = 0 } + { 0 < vBase < 25 } + { 25 <= vBase < 25 + 1e-8 } + { 25 + 1e-8 <= vBase }.
Proof.
  intros H0.
  destruct (Req_EM_T vBase 0) as [E | N]; [left; left; left; exact E |].
  destruct (Rlt_dec vBase 25) as [L | G]; [left; left; right; lra |].
  destruct (Rlt_dec vBase (25 + 1e-8)) as [L' | G']; [left; right; lra | right; lra].
Qed.

(** C7. For every volume [0 <= vBase] and every strength combination,
    [calculatePH] returns from a [return] statement of the block of that
    combination; the final [return 7] is never reached. *)
Theorem calculatePH_fallback_unreachable (vBase : R) (acid base : ElectrolyteType) :
  0 <= vBase ->
  site_combination (returnSite vBase acid base) = Some (acid, base)
  /\ returnSite vBase acid base <> Fallback.
Proof.
  intros H0.
  assert (Hsite : site_combination (returnSite vBase acid base) = Some (acid, base)).
  { unfold returnSite.
    destruct (returnSite_cases vBase H0) as [[[E | B] | Q] | A];
      destruct acid, base.
    - rewrite traced_SS_excessAcid by lra; reflexivity.
    - rewrite traced_SW_initial by lra; reflexivity.
    - rewrite traced_WS_initial by lra; reflexivity.
    - rewrite traced_WW_initial by lra; reflexivity.
    - rewrite traced_SS_excessAcid by lra; reflexivity.
    - rewrite traced_SW_excessAcid by lra; reflexivity.
    - rewrite traced_WS_buffer by lra; reflexivity.
    - rewrite traced_WW_bufferAcid by lra; reflexivity.
    - rewrite traced_SS_equivalence by lra; reflexivity.
    - rewrite traced_SW_equivalence by lra; reflexivity.
    - rewrite traced_WS_equivalence by lra; reflexivity.
    - rewrite traced_WW_equivalence by lra; reflexivity.
    - rewrite traced_SS_excessBase by lra; reflexivity.
    - rewrite traced_SW_buffer by lra; reflexivity.
    - rewrite traced_WS_excessBase by lra; reflexivity.
    - rewrite traced_WW_bufferBase by lra; reflexivity. }
  split; [exact Hsite |].
  intros F. rewrite F in Hsite. discriminate Hsite.
Qed.

Lemma calculatePH_fallback_unreachable_witness :
  site_combination (returnSite 12.5 weak weak) = Some (weak, weak)
  /\ returnSite 12.5 weak weak <> Fallback.
Proof. apply (calculatePH_fallback_unreachable 12.5 weak weak); lra. Defined.

(** * State updates *)

(** C9. Selecting an acid strength or a base strength, whatever the value,
    stores the selection and sets the titrant volume to 0 in the same
    update. *)
Theorem strength_change_resets_volume (value : ElectrolyteType) (prev : TitrationState) :
  (addedBaseVol (handle (SelectAcid value) prev) = 0
   /\ acidType (handle (SelectAcid value) prev) = value)
  /\ (addedBaseVol (handle (SelectBase value) prev) = 0
      /\ baseType (handle (SelectBase value) prev) = value).
Proof. repeat split. Qed.

(** C10. Selecting an indicator stores the selection and leaves the titrant
    volume and both strengths as they were. *)
Theorem indicator_change_keeps_titration (value : IndicatorType) (prev : TitrationState) :
  indicator (handle (SelectIndicator value) prev) = value
  /\ addedBaseVol (handle (SelectIndicator value) prev) = addedBaseVol prev
  /\ acidType (handle (SelectIndicator value) prev) = acidType prev
  /\ baseType (handle (SelectIndicator value) prev) = baseType prev.
Proof. repeat split. Qed.

(** The volume buttons keep the titrant volume inside [0, 50]. *)
Lemma addVolume_clamped (amount : R) (prev : TitrationState) :
  0 <= addedBaseVol (addVolume amount prev) <= 50.
Proof.
  unfold addVolume, Math.max, Math.min; simpl.
  unfold Rmax, Rmin.
  destruct (Rle_dec (addedBaseVol prev + amount) 50);
    destruct (Rle_dec 0 _); lra.
Qed.

(** Whatever the controls do, the titrant volume stays inside [0, 50]. *)
Lemma reachable_volume_bounds (s : TitrationState) :
  reachable s -> 0 <= addedBaseVol s <= 50.
Proof.
  induction 1 as [| e s Hs IH].
  - simpl. lra.
  - destruct e as [value | value | value | amount |]; cbn [handle].
    + simpl. lra.
    + simpl. lra.
    + exact IH.
    + apply addVolume_clamped.
    + simpl. lra.
Qed.

(** The volumes the buttons aim at, the positive multiples of 0.1 mL up to
    50 mL, are all volumes of [clear_of_equivalence]. *)
Lemma grid_clear_of_equivalence (k : nat) :
  (1 <= k <= 500)%nat -> clear_of_equivalence (INR k / 10).
Proof.
  intros [Hlo Hhi]. unfold clear_of_equivalence.
  assert (C : forall n : nat, INR n = IZR (Z.of_nat n)) by apply INR_IZR_INZ.
  apply le_INR in Hlo. apply le_INR in Hhi.
  rewrite (C 1%nat) in Hlo. rewrite (C 500%nat) in Hhi.
  destruct (Nat.lt_trichotomy k 250) as [Hlt | [Heq | Hgt]].
  - left. assert (H : INR k <= INR 249) by (apply le_INR; lia).
    rewrite (C 249%nat) in H. cbn [Z.of_nat Pos.of_succ_nat Pos.succ] in *. lra.
  - right; left. subst k. rewrite (C 250%nat).
    cbn [Z.of_nat Pos.of_succ_nat Pos.succ]. lra.
  - right; right. assert (H : INR 251 <= INR k) by (apply le_INR; lia).
    rewrite (C 251%nat) in H. cbn [Z.of_nat Pos.of_succ_nat Pos.succ] in *. lra.
Qed.

(** * Indicator colour *)

(** Below the lower end of the indicator's range the first statement of
    [getSolutionColor] returns the neutral colour, whatever the indicator. *)
Lemma getSolutionColor_below_range (ph : R) (type : IndicatorType) :
  ph < rangeLow (INDICATORS type) -> getSolutionColor ph type = "#f1f5f9".
Proof.
  intros H. unfold getSolutionColor.
  cbv beta zeta. rewrite num_lt_true by exact H. reflexivity.
Qed.

(** C3, evaluated on the program: for methyl red at pH 3.0, which is below
    the range 4.4 - 6.2, [getSolutionColor] returns the neutral ['#f1f5f9'],
    while the cataloged acid-side colour of methyl red is ['#ef4444']. *)
Theorem getSolutionColor_methylRed_acid :
  getSolutionColor 3.0 methylRed = "#f1f5f9"
  /\ colorLow (INDICATORS methylRed) = "#ef4444"
  /\ getSolutionColor 3.0 methylRed <> colorLow (INDICATORS methylRed).
Proof.
  assert (H : getSolutionColor 3.0 methylRed = "#f1f5f9").
  { apply getSolutionColor_below_range. simpl. lra. }
  split; [exact H |]. split; [reflexivity |].
  rewrite H. simpl. discriminate.
Qed.

(** * Values of the pH engine at the reference volumes *)

Lemma calculatePH_SS_start : calculatePH 0 strong strong = 1.
Proof.
  unfold calculatePH. rewrite traced_SS_excessAcid by lra. cbn [snd].
  replace ((ACID_VOL_INITIAL * ACID_CONC - 0 * BASE_CONC) / (ACID_VOL_INITIAL + 0))
    with (/ 10) by (unfold_consts; lra).
  rewrite log10_inv by lra. rewrite log10_10. ring.
Qed.

Lemma calculatePH_SS_end :
  calculatePH 50 strong strong = 14 - - Math.log10 ((5 - 2.5) / 75).
Proof.
  unfold calculatePH. rewrite traced_SS_excessBase by lra. cbn [snd].
  replace ((50 * BASE_CONC - ACID_VOL_INITIAL * ACID_CONC) / (ACID_VOL_INITIAL + 50))
    with ((5 - 2.5) / 75) by (unfold_consts; lra).
  set (l := Math.log10 _). lra.
Qed.

Lemma calculatePH_SS_end_enclosure :
  12.52 < calculatePH 50 strong strong < 12.53.
Proof.
  rewrite calculatePH_SS_end.
  log10_upper_at ((5 - 2.5) / 75) 100%nat 147%nat 0%nat Hu.
  log10_lower_at ((5 - 2.5) / 75) 100%nat 148%nat 0%nat Hl.
  set (l := Math.log10 _) in *. lra.
Qed.

(** C5 as amended. At the start of a strong/strong titration the pH is
    exactly 1; at 50 mL it is [14 - (-log10((5 - 2.5)/75))], which lies
    between 12.52 and 12.53. *)
Theorem calculatePH_SS_reference_values :
  calculatePH 0 strong strong = 1
  /\ calculatePH 50 strong strong = 14 - - Math.log10 ((5 - 2.5) / 75)
  /\ 12.52 < calculatePH 50 strong strong < 12.53.
Proof.
  split; [exact calculatePH_SS_start |].
  split; [exact calculatePH_SS_end | exact calculatePH_SS_end_enclosure].
Qed.

(** C5 as stated fails in its last part: the pH at 50 mL is not 12.60, not
    even up to 0.05. *)
Lemma calculatePH_SS_end_not_12_60 :
  ~ (calculatePH 0 strong strong = 1
     /\ calculatePH 50 strong strong = 14 - - Math.log10 ((5 - 2.5) / 75)
     /\ approximately 0.05 (calculatePH 50 strong strong) 12.60).
Proof.
  intros (_ & _ & H). unfold approximately in H.
  pose proof calculatePH_SS_end_enclosure as E.
  revert H. unfold Rabs. destruct (Rcase_abs _); lra.
Qed.

Lemma calculatePH_WS_start :
  calculatePH 0 weak strong = - Math.log10 (Math.sqrt (1.8e-5 * 0.1)).
Proof.
  unfold calculatePH. rewrite traced_WS_initial by reflexivity. reflexivity.
Qed.

Lemma calculatePH_WS_start_enclosure :
  2.87 < calculatePH 0 weak strong < 2.88.
Proof.
  rewrite calculatePH_WS_start.
  rewrite log10_sqrt by lra.
  log10_upper_at (1.8e-5 * 0.1) 100%nat 574%nat 0%nat Hu.
  log10_lower_at (1.8e-5 * 0.1) 100%nat 576%nat 0%nat Hl.
  set (l := Math.log10 _) in *. lra.
Qed.

(** C8 as amended. At the start of a weak-acid/strong-base titration the pH
    is [-log10(sqrt(1.8e-5 * 0.1))], which lies between 2.87 and 2.88. *)
Theorem calculatePH_WS_initial_value :
  calculatePH 0 weak strong = - Math.log10 (Math.sqrt (1.8e-5 * 0.1))
  /\ 2.87 < calculatePH 0 weak strong < 2.88.
Proof.
  split; [exact calculatePH_WS_start | exact calculatePH_WS_start_enclosure].
Qed.

(** C8 as stated fails in its numeral: the value is not 3.37, not even up
    to 0.05. *)
Lemma calculatePH_WS_initial_not_3_37 :
  ~ (calculatePH 0 weak strong = - Math.log10 (Math.sqrt (1.8e-5 * 0.1))
     /\ approximately 0.05 (calculatePH 0 weak strong) 3.37).
Proof.
  intros (_ & H). unfold approximately in H.
  pose proof calculatePH_WS_start_enclosure as E.
  revert H. unfold Rabs. destruct (Rcase_abs _); lra.
Qed.

(** * The equivalence test of the strong/strong block *)

Lemma calculatePH_SS_equivalence (vBase : R) :
  25 <= vBase < 25 + 1e-8 -> calculatePH vBase strong strong = 7.0.
Proof.
  intros H. unfold calculatePH. rewrite traced_SS_equivalence by exact H. reflexivity.
Qed.

Lemma calculatePH_SS_25 : calculatePH 25 strong strong = 7.0.
Proof. apply calculatePH_SS_equivalence. lra. Qed.

(** C2, evaluated on the program. At 24.999999999999986 mL the moles of
    base are within 1e-9 of the moles of acid, yet [calculatePH] returns from
    the excess-acid statement, with a pH above 16 instead of 7.0: the
    comparison [molesB < molesA] is made before the epsilon test, which
    therefore only catches volumes from 25 mL upwards. *)
Theorem calculatePH_SS_below_equivalence_not_7 :
  0 <= 24.999999999999986
  /\ Math.abs (24.999999999999986 * BASE_CONC - ACID_VOL_INITIAL * ACID_CONC) < 1e-9
  /\ returnSite 24.999999999999986 strong strong = SS_excessAcid
  /\ 16 < calculatePH 24.999999999999986 strong strong
  /\ calculatePH 24.999999999999986 strong strong <> 7.0.
Proof.
  assert (Habs : Math.abs (24.999999999999986 * BASE_CONC - ACID_VOL_INITIAL * ACID_CONC)
                 < 1e-9).
  { unfold Math.abs, Rabs. destruct (Rcase_abs _); unfold_consts; lra. }
  assert (Hsite : returnSite 24.999999999999986 strong strong = SS_excessAcid).
  { unfold returnSite. rewrite traced_SS_excessAcid by lra. reflexivity. }
  assert (Hph : 16 < calculatePH 24.999999999999986 strong strong).
  { unfold calculatePH. rewrite traced_SS_excessAcid by lra. cbn [snd].
    log10_upper_at
      ((ACID_VOL_INITIAL * ACID_CONC - 24.999999999999986 * BASE_CONC)
       / (ACID_VOL_INITIAL + 24.999999999999986)) 1%nat 16%nat 0%nat Hu.
    set (l := Math.log10 _) in *. lra. }
  split; [lra |]. repeat split; try assumption. lra.
Qed.

(** * The pH on the regions of the sweep *)

Ltac value_at lemma :=
  unfold calculatePH; rewrite lemma by lra; cbn [snd]; unfold_consts.

Ltac atom_log10 :=
  repeat match goal with
         | H : context [Math.log10 ?x] |- _ =>
             let l := fresh "l" in set (l := Math.log10 x) in *; clearbody l
         | |- context [Math.log10 ?x] =>
             let l := fresh "l" in set (l := Math.log10 x) in *; clearbody l
         end.

Section Regions.

Variable x : R.

(** Excess strong acid, up to 24.9 mL. *)
Lemma excessAcid_enclosure : 0 <= x <= 24.9 ->
  1 <= - Math.log10 ((25 * 0.1 - x * 0.1) / (25 + x)) <= 4.
Proof.
  intros H.
  assert (Hlo : / 10 ^ 4 <= (25 * 0.1 - x * 0.1) / (25 + x))
    by (apply quotient_ge; lra).
  assert (Hhi : (25 * 0.1 - x * 0.1) / (25 + x) <= / 10 ^ 1)
    by (apply quotient_le; lra).
  assert (Hpos : 0 < (25 * 0.1 - x * 0.1) / (25 + x))
    by (apply Rdiv_lt_0_compat; lra).
  pose proof (log10_ge_neg _ 4 Hlo) as L.
  pose proof (log10_le_neg _ 1 Hpos Hhi) as U.
  simpl INR in *. atom_log10. lra.
Qed.

(** Excess strong base, from 25.1 mL. *)
Lemma excessBase_enclosure : 25.1 <= x <= 50 ->
  10 <= 14.0 - - Math.log10 ((x * 0.1 - 25 * 0.1) / (25 + x)) <= 14.
Proof.
  intros H.
  assert (Hlo : / 10 ^ 4 <= (x * 0.1 - 25 * 0.1) / (25 + x))
    by (apply quotient_ge; lra).
  assert (Hhi : (x * 0.1 - 25 * 0.1) / (25 + x) <= / 10 ^ 0)
    by (apply quotient_le; lra).
  assert (Hpos : 0 < (x * 0.1 - 25 * 0.1) / (25 + x))
    by (apply Rdiv_lt_0_compat; lra).
  pose proof (log10_ge_neg _ 4 Hlo) as L.
  pose proof (log10_le_neg _ 0 Hpos Hhi) as U.
  simpl INR in *. atom_log10. lra.
Qed.

(** The acid dissociation constant: [4 <= pKa <= 5]. *)
Lemma log10_K_enclosure : -5 <= Math.log10 1.8e-5 <= -4.
Proof.
  pose proof (log10_ge_neg 1.8e-5 5 ltac:(lra)) as L.
  pose proof (log10_le_neg 1.8e-5 4 ltac:(lra) ltac:(lra)) as U.
  simpl INR in *. atom_log10. lra.
Qed.

(** Buffer of the weak acid, from 0.1 mL to 24.9 mL. *)
Lemma bufferAcid_enclosure : 0.1 <= x <= 24.9 ->
  1 <= - Math.log10 1.8e-5 + Math.log10 (x * 0.1 / (25 * 0.1 - x * 0.1)) <= 8.
Proof.
  intros H.
  assert (Hlo : / 10 ^ 3 <= x * 0.1 / (25 * 0.1 - x * 0.1))
    by (apply quotient_ge; lra).
  assert (Hhi : x * 0.1 / (25 * 0.1 - x * 0.1) <= 10 ^ 3)
    by (apply quotient_le; lra).
  assert (Hpos : 0 < x * 0.1 / (25 * 0.1 - x * 0.1))
    by (apply Rdiv_lt_0_compat; lra).
  pose proof (log10_ge_neg _ 3 Hlo) as L.
  pose proof (log10_le_pos _ 3 Hpos Hhi) as U.
  pose proof log10_K_enclosure as K.
  simpl INR in *. atom_log10. lra.
Qed.

(** Buffer of the weak base, from 25.1 mL. *)
Lemma bufferBase_enclosure : 25.1 <= x <= 50 ->
  6 <= 14.0 - - Math.log10 1.8e-5 + Math.log10 ((x * 0.1 - 25 * 0.1) / (25 * 0.1)) <= 10.
Proof.
  intros H.
  assert (Hlo : / 10 ^ 3 <= (x * 0.1 - 25 * 0.1) / (25 * 0.1))
    by (apply quotient_ge; lra).
  assert (Hhi : (x * 0.1 - 25 * 0.1) / (25 * 0.1) <= / 10 ^ 0)
    by (apply quotient_le; lra).
  assert (Hpos : 0 < (x * 0.1 - 25 * 0.1) / (25 * 0.1))
    by (apply Rdiv_lt_0_compat; lra).
  pose proof (log10_ge_neg _ 3 Hlo) as L.
  pose proof (log10_le_neg _ 0 Hpos Hhi) as U.
  pose proof log10_K_enclosure as K.
  simpl INR in *. atom_log10. lra.
Qed.

End Regions.

(** The weak acid before any base is added. *)
Lemma weakStart_enclosure : 2.5 <= - Math.log10 (Math.sqrt (1.8e-5 * 0.1)) <= 3.
Proof.
  rewrite log10_sqrt by lra.
  pose proof (log10_ge_neg (1.8e-5 * 0.1) 6 ltac:(lra)) as L.
  pose proof (log10_le_neg (1.8e-5 * 0.1) 5 ltac:(lra) ltac:(lra)) as U.
  simpl INR in *. atom_log10. lra.
Qed.

(** Hydrolysis of the salt at 25 mL: [-12 <= log10 (K_hyd * [salt]) <= -8]. *)
Lemma hydrolysis_enclosure :
  -6 <= Math.log10 (Math.sqrt (1e-14 / 1.8e-5 * (25 * 0.1 / (25 + 25)))) <= -4.
Proof.
  rewrite log10_sqrt by lra.
  pose proof (log10_ge_neg (1e-14 / 1.8e-5 * (25 * 0.1 / (25 + 25))) 12 ltac:(lra)) as L.
  pose proof (log10_le_neg (1e-14 / 1.8e-5 * (25 * 0.1 / (25 + 25))) 8
                ltac:(lra) ltac:(lra)) as U.
  simpl INR in *. atom_log10. lra.
Qed.

Lemma log10_tenth : Math.log10 0.1 = -1.
Proof.
  replace 0.1 with (/ 10) by lra. rewrite log10_inv by lra. rewrite log10_10. ring.
Qed.

Section RegionsOfCalculatePH.

Variable x : R.

Lemma calculatePH_strongAcid_before (base : ElectrolyteType) :
  0 <= x <= 24.9 -> 1 <= calculatePH x strong base <= 4.
Proof.
  intros H. destruct base.
  - value_at traced_SS_excessAcid. apply excessAcid_enclosure, H.
  - destruct (Req_EM_T x 0) as [E | N].
    + value_at traced_SW_initial. rewrite log10_tenth. lra.
    + value_at traced_SW_excessAcid. apply excessAcid_enclosure, H.
Qed.

Lemma calculatePH_weakAcid_start (base : ElectrolyteType) :
  x = 0 -> 2.5 <= calculatePH x weak base <= 3.
Proof.
  intros H. destruct base.
  - value_at traced_WS_initial. apply weakStart_enclosure.
  - value_at traced_WW_initial. apply weakStart_enclosure.
Qed.

Lemma calculatePH_weakAcid_before (base : ElectrolyteType) :
  0.1 <= x <= 24.9 -> 1 <= calculatePH x weak base <= 8.
Proof.
  intros H. destruct base.
  - value_at traced_WS_buffer. apply bufferAcid_enclosure, H.
  - value_at traced_WW_bufferAcid. apply bufferAcid_enclosure, H.
Qed.

Lemma calculatePH_strongBase_after (acid : ElectrolyteType) :
  25.1 <= x <= 50 -> 10 <= calculatePH x acid strong <= 14.
Proof.
  intros H. destruct acid.
  - value_at traced_SS_excessBase. apply excessBase_enclosure, H.
  - value_at traced_WS_excessBase. apply excessBase_enclosure, H.
Qed.

Lemma calculatePH_weakBase_after (acid : ElectrolyteType) :
  25.1 <= x <= 50 -> 6 <= calculatePH x acid weak <= 10.
Proof.
  intros H. destruct acid.
  - value_at traced_SW_buffer. apply bufferBase_enclosure, H.
  - value_at traced_WW_bufferBase. apply bufferBase_enclosure, H.
Qed.

End RegionsOfCalculatePH.

Lemma calculatePH_WS_25 : 8 <= calculatePH 25 weak strong <= 10.
Proof.
  value_at traced_WS_equivalence.
  pose proof hydrolysis_enclosure as E. atom_log10. lra.
Qed.

Lemma calculatePH_SW_25 : 4 <= calculatePH 25 strong weak <= 6.
Proof.
  value_at traced_SW_equivalence.
  pose proof hydrolysis_enclosure as E. atom_log10. lra.
Qed.

Lemma calculatePH_WW_25 : calculatePH 25 weak weak = 7.
Proof. value_at traced_WW_equivalence. atom_log10. lra. Qed.

(** * Comparing the formulas of [calculatePH] *)

Lemma log10_le_iff (x y : R) : 0 < x -> 0 < y -> (Math.log10 x <= Math.log10 y <-> x <= y).
Proof.
  intros Hx Hy. split.
  - intros H. destruct (Rle_or_lt x y) as [Hle | Hlt]; [exact Hle |].
    pose proof (log10_lt y x Hy Hlt). lra.
  - apply log10_le, Hx.
Qed.

Lemma log10_1e (n : nat) : Math.log10 (/ 10 ^ n) = - INR n.
Proof. rewrite log10_inv by (apply pow_lt; lra). now rewrite log10_pow10. Qed.

Lemma quotient_ge_iff (a n d : R) : 0 < d -> (a <= n / d <-> a * d <= n).
Proof.
  intros Hd. split; [| apply quotient_ge, Hd].
  intros H. apply Rmult_le_compat_r with (r := d) in H; [| lra].
  unfold Rdiv in H. rewrite Rmult_assoc, Rinv_l in H by lra. lra.
Qed.

Lemma quotient_le_iff (a n d : R) : 0 < d -> (n / d <= a <-> n <= a * d).
Proof.
  intros Hd. split; [| apply quotient_le, Hd].
  intros H. apply Rmult_le_compat_r with (r := d) in H; [| lra].
  unfold Rdiv in H. rewrite Rmult_assoc, Rinv_l in H by lra. lra.
Qed.

Lemma quotient_product (n1 d1 n2 d2 : R) : 0 < d1 -> 0 < d2 ->
  n1 / d1 * (n2 / d2) = n1 * n2 / (d1 * d2).
Proof. intros H1 H2. field. lra. Qed.

Ltac positive :=
  repeat first
    [ assumption
    | lra
    | apply Rmult_lt_0_compat
    | apply Rdiv_lt_0_compat
    | apply Rinv_0_lt_compat
    | apply pow_lt
    | apply sqrt_lt_R0 ].

(** Both sides of a comparison of logarithms written as sums of the
    logarithms of their factors. *)
Ltac expand_log10 :=
  repeat first
    [ rewrite log10_1e
    | rewrite log10_1
    | rewrite log10_pow10
    | rewrite log10_sqrt by positive
    | rewrite log10_mult by positive
    | rewrite log10_inv by positive ];
  rewrite ?INR_IZR_INZ; simpl Z.of_nat.

(** A comparison of sums of logarithms is the comparison [X <= Y] of two
    products. *)
Ltac by_log10 X Y :=
  rewrite <- (log10_le_iff X Y) by positive;
  expand_log10; atom_log10; split; intros; lra.

Section Comparisons.

(** [a]: concentration of the excess acid; [o]: of the excess base; [r]:
    buffer ratio of the weak acid; [x]: buffer ratio of the weak base; [q]:
    hydrolysis constant times the salt concentration. *)
Variables a o r x q : R.
Hypothesis Ha : 0 < a.
Hypothesis Ho : 0 < o.
Hypothesis Hr : 0 < r.
Hypothesis Hx : 0 < x.
Hypothesis Hq : 0 < q.

(** Across the equivalence volume. *)

Lemma excessAcid_le_excessBase :
  - Math.log10 a <= 14.0 - - Math.log10 o <-> / 10 ^ 14 <= a * o.
Proof. by_log10 (/ 10 ^ 14) (a * o). Qed.

Lemma bufferAcid_le_excessBase :
  - Math.log10 1.8e-5 + Math.log10 r <= 14.0 - - Math.log10 o
  <-> / 10 ^ 14 * r <= 1.8e-5 * o.
Proof. by_log10 (/ 10 ^ 14 * r) (1.8e-5 * o). Qed.

Lemma excessAcid_le_bufferBase :
  - Math.log10 a <= 14.0 - - Math.log10 1.8e-5 + Math.log10 x
  <-> / 10 ^ 14 <= 1.8e-5 * (a * x).
Proof. by_log10 (/ 10 ^ 14) (1.8e-5 * (a * x)). Qed.

(** Into and out of the equivalence window. *)

Lemma excessAcid_le_7 : - Math.log10 a <= 7.0 <-> / 10 ^ 7 <= a.
Proof. by_log10 (/ 10 ^ 7) a. Qed.

Lemma seven_le_excessBase : 7.0 <= 14.0 - - Math.log10 o <-> / 10 ^ 7 <= o.
Proof. by_log10 (/ 10 ^ 7) o. Qed.

Lemma excessAcid_le_hydrolysis :
  - Math.log10 a <= - Math.log10 (Math.sqrt q) <-> q <= a * a.
Proof. by_log10 q (a * a). Qed.

Lemma hydrolysis_le_bufferBase :
  - Math.log10 (Math.sqrt q) <= 14.0 - - Math.log10 1.8e-5 + Math.log10 x
  <-> / 10 ^ 28 <= q * (1.8e-5 * 1.8e-5 * (x * x)).
Proof. by_log10 (/ 10 ^ 28) (q * (1.8e-5 * 1.8e-5 * (x * x))). Qed.

Lemma bufferAcid_le_hydrolysis :
  - Math.log10 1.8e-5 + Math.log10 r <= 14.0 - - Math.log10 (Math.sqrt q)
  <-> / 10 ^ 28 * (r * r) <= 1.8e-5 * 1.8e-5 * q.
Proof. by_log10 (/ 10 ^ 28 * (r * r)) (1.8e-5 * 1.8e-5 * q). Qed.

Lemma hydrolysis_le_excessBase :
  14.0 - - Math.log10 (Math.sqrt q) <= 14.0 - - Math.log10 o <-> q <= o * o.
Proof. by_log10 q (o * o). Qed.

(** From the start of a weak acid into its buffer. *)

Lemma weakStart_le_bufferAcid :
  - Math.log10 (Math.sqrt (1.8e-5 * 0.1)) <= - Math.log10 1.8e-5 + Math.log10 r
  <-> 1.8e-5 <= 0.1 * (r * r).
Proof. by_log10 1.8e-5 (0.1 * (r * r)). Qed.

(** Against the ends of the scale. *)

Lemma excessAcid_nonneg : 0 <= - Math.log10 a <-> a <= 1.
Proof. by_log10 a 1. Qed.

Lemma excessAcid_le_14 : - Math.log10 a <= 14 <-> / 10 ^ 14 <= a.
Proof. by_log10 (/ 10 ^ 14) a. Qed.

Lemma excessBase_nonneg : 0 <= 14.0 - - Math.log10 o <-> / 10 ^ 14 <= o.
Proof. by_log10 (/ 10 ^ 14) o. Qed.

Lemma excessBase_le_14 : 14.0 - - Math.log10 o <= 14 <-> o <= 1.
Proof. by_log10 o 1. Qed.

Lemma bufferAcid_nonneg :
  0 <= - Math.log10 1.8e-5 + Math.log10 r <-> 1.8e-5 <= r.
Proof. by_log10 1.8e-5 r. Qed.

Lemma bufferAcid_le_14 :
  - Math.log10 1.8e-5 + Math.log10 r <= 14 <-> / 10 ^ 14 * r <= 1.8e-5.
Proof. by_log10 (/ 10 ^ 14 * r) 1.8e-5. Qed.

Lemma bufferBase_nonneg :
  0 <= 14.0 - - Math.log10 1.8e-5 + Math.log10 x <-> / 10 ^ 14 <= 1.8e-5 * x.
Proof. by_log10 (/ 10 ^ 14) (1.8e-5 * x). Qed.

Lemma bufferBase_le_14 :
  14.0 - - Math.log10 1.8e-5 + Math.log10 x <= 14 <-> 1.8e-5 * x <= 1.
Proof. by_log10 (1.8e-5 * x) 1. Qed.

Lemma hydrolysis_window_enclosure :
  / 10 ^ 12 <= q <= / 10 ^ 8 -> -6 <= Math.log10 (Math.sqrt q) <= -4.
Proof.
  intros [L U].
  apply (log10_le_iff (/ 10 ^ 12) q) in L; [| positive | positive].
  apply (log10_le_iff q (/ 10 ^ 8)) in U; [| positive | positive].
  revert L U. expand_log10. atom_log10. lra.
Qed.

End Comparisons.


Lemma hydrolysis_decreasing (q1 q2 : R) : 0 < q2 ->
  q2 < q1 -> Math.log10 (Math.sqrt q2) < Math.log10 (Math.sqrt q1).
Proof.
  intros H2 H.
  assert (H1 : 0 < q1) by lra.
  pose proof (log10_lt q2 q1 H2 H) as L.
  revert L. expand_log10. atom_log10. lra.
Qed.

(** * Range of the pH *)

(** ** The formula behind each stretch of the sweep *)

Section FormulasOfCalculatePH.

Variable x : R.

Lemma calculatePH_strongAcid_excess (base : ElectrolyteType) :
  0 <= x < 25 ->
  calculatePH x strong base = - Math.log10 ((25 * 0.1 - x * 0.1) / (25 + x)).
Proof.
  intros H. destruct base.
  - value_at traced_SS_excessAcid. reflexivity.
  - destruct (Req_EM_T x 0) as [E | N].
    + value_at traced_SW_initial. subst x. f_equal. f_equal. lra.
    + value_at traced_SW_excessAcid. reflexivity.
Qed.

Lemma calculatePH_weakAcid_buffer (base : ElectrolyteType) :
  0 < x < 25 ->
  calculatePH x weak base
  = - Math.log10 1.8e-5 + Math.log10 (x * 0.1 / (25 * 0.1 - x * 0.1)).
Proof.
  intros H. destruct base.
  - value_at traced_WS_buffer. reflexivity.
  - value_at traced_WW_bufferAcid. reflexivity.
Qed.

Lemma calculatePH_WS_window :
  25 <= x < 25 + 1e-8 ->
  calculatePH x weak strong
  = 14.0 - - Math.log10 (Math.sqrt (1e-14 / 1.8e-5 * (25 * 0.1 / (25 + x)))).
Proof. intros H. value_at traced_WS_equivalence. reflexivity. Qed.

Lemma calculatePH_SW_window :
  25 <= x < 25 + 1e-8 ->
  calculatePH x strong weak
  = - Math.log10 (Math.sqrt (1e-14 / 1.8e-5 * (25 * 0.1 / (25 + x)))).
Proof. intros H. value_at traced_SW_equivalence. reflexivity. Qed.

Lemma calculatePH_strongBase_excess (acid : ElectrolyteType) :
  25 + 1e-8 <= x ->
  calculatePH x acid strong = 14.0 - - Math.log10 ((x * 0.1 - 25 * 0.1) / (25 + x)).
Proof.
  intros H. destruct acid.
  - value_at traced_SS_excessBase. reflexivity.
  - value_at traced_WS_excessBase. reflexivity.
Qed.

Lemma calculatePH_weakBase_buffer (acid : ElectrolyteType) :
  25 + 1e-8 <= x ->
  calculatePH x acid weak
  = 14.0 - - Math.log10 1.8e-5 + Math.log10 ((x * 0.1 - 25 * 0.1) / (25 * 0.1)).
Proof.
  intros H. destruct acid.
  - value_at traced_SW_buffer. reflexivity.
  - value_at traced_WW_bufferBase. reflexivity.
Qed.

(** The salt concentration in the window, and the hydrolysis term. *)
Lemma window_salt : 25 <= x < 25 + 1e-8 -> 0.0499999 <= 25 * 0.1 / (25 + x) <= 0.05.
Proof. intros H. split; [apply quotient_ge | apply quotient_le]; lra. Qed.

Lemma window_hydrolysis : 25 <= x < 25 + 1e-8 ->
  2.77777e-11 <= 1e-14 / 1.8e-5 * (25 * 0.1 / (25 + x)) <= 2.77777778e-11.
Proof.
  intros H. pose proof (window_salt H) as C.
  set (c := 25 * 0.1 / (25 + x)) in *. lra.
Qed.

Lemma window_hydrolysis_log : 25 <= x < 25 + 1e-8 ->
  -6 <= Math.log10 (Math.sqrt (1e-14 / 1.8e-5 * (25 * 0.1 / (25 + x)))) <= -4.
Proof.
  intros H. pose proof (window_hydrolysis H) as Q.
  apply hydrolysis_window_enclosure; lra.
Qed.

End FormulasOfCalculatePH.

(** ** Where each formula is on the scale from 0 to 14 *)

Section RangeOfCalculatePH.

Variable x : R.

(** A strong acid is on the scale exactly until its excess falls to
    1e-14 mol/L. *)
Lemma calculatePH_strongAcid_on_scale (base : ElectrolyteType) :
  0 <= x <= 25 - 1e-14 ->
  0 <= calculatePH x strong base <= 14
  <-> / 10 ^ 14 * (25 + x) <= 25 * 0.1 - x * 0.1.
Proof.
  intros H. rewrite calculatePH_strongAcid_excess by lra.
  assert (Hpos : 0 < (25 * 0.1 - x * 0.1) / (25 + x)) by positive.
  pose proof (excessAcid_nonneg _ Hpos) as L.
  pose proof (excessAcid_le_14 _ Hpos) as U.
  rewrite quotient_le_iff in L by lra.
  rewrite quotient_ge_iff in U by lra.
  split; [tauto |].
  intros HU. split; [apply L; lra | apply U, HU].
Qed.

(** The buffer of a weak acid is on the scale exactly while the ratio of
    salt to acid lies between Ka and Ka * 1e14. *)
Lemma calculatePH_weakAcid_on_scale (base : ElectrolyteType) :
  0 < x <= 25 - 1e-14 ->
  (0 <= calculatePH x weak base <-> 1.8e-5 * (25 * 0.1 - x * 0.1) <= x * 0.1)
  /\ (calculatePH x weak base <= 14
      <-> / 10 ^ 14 * (x * 0.1) <= 1.8e-5 * (25 * 0.1 - x * 0.1)).
Proof.
  intros H. rewrite calculatePH_weakAcid_buffer by lra.
  assert (Hpos : 0 < x * 0.1 / (25 * 0.1 - x * 0.1)) by positive.
  pose proof (bufferAcid_nonneg _ Hpos) as L.
  pose proof (bufferAcid_le_14 _ Hpos) as U.
  rewrite quotient_ge_iff in L by lra.
  split; [exact L |].
  rewrite U. clear L U.
  replace (/ 10 ^ 14 * (x * 0.1 / (25 * 0.1 - x * 0.1)))
    with (/ 10 ^ 14 * (x * 0.1) / (25 * 0.1 - x * 0.1))
    by (unfold Rdiv; ring).
  apply quotient_le_iff. lra.
Qed.

(** In the equivalence window every combination is on the scale. *)
Lemma calculatePH_window_on_scale (acid base : ElectrolyteType) :
  25 <= x < 25 + 1e-8 -> 0 <= calculatePH x acid base <= 14.
Proof.
  intros H. pose proof (window_hydrolysis_log x H) as Q.
  destruct acid, base.
  - value_at traced_SS_equivalence. lra.
  - rewrite calculatePH_SW_window by assumption. lra.
  - rewrite calculatePH_WS_window by assumption. lra.
  - value_at traced_WW_equivalence. atom_log10. lra.
Qed.

(** After the window a strong base is on the scale up to 50 mL. *)
Lemma calculatePH_strongBase_on_scale (acid : ElectrolyteType) :
  25 + 1e-8 <= x <= 50 -> 0 <= calculatePH x acid strong <= 14.
Proof.
  intros H. rewrite calculatePH_strongBase_excess by lra.
  assert (Hpos : 0 < (x * 0.1 - 25 * 0.1) / (25 + x)) by positive.
  split.
  - apply excessBase_nonneg; [exact Hpos |]. apply quotient_ge; lra.
  - apply excessBase_le_14; [exact Hpos |]. apply quotient_le; lra.
Qed.

(** The buffer of a weak base is on the scale exactly once the ratio of base
    to salt has reached Kw / Kb. *)
Lemma calculatePH_weakBase_on_scale (acid : ElectrolyteType) :
  25 + 1e-8 <= x <= 50 ->
  0 <= calculatePH x acid weak <= 14
  <-> / 10 ^ 14 * (25 * 0.1) <= 1.8e-5 * (x * 0.1 - 25 * 0.1).
Proof.
  intros H. rewrite calculatePH_weakBase_buffer by lra.
  assert (Hpos : 0 < (x * 0.1 - 25 * 0.1) / (25 * 0.1)) by positive.
  pose proof (bufferBase_nonneg _ Hpos) as L.
  pose proof (bufferBase_le_14 _ Hpos) as U.
  assert (E : 1.8e-5 * ((x * 0.1 - 25 * 0.1) / (25 * 0.1))
              = 1.8e-5 * (x * 0.1 - 25 * 0.1) / (25 * 0.1))
    by (unfold Rdiv; ring).
  rewrite E in L, U.
  rewrite quotient_ge_iff in L by lra.
  rewrite quotient_le_iff in U by lra.
  split; [tauto |].
  intros HL. split; [apply L, HL | apply U; lra].
Qed.

End RangeOfCalculatePH.

(** C6 as amended. For every strength combination and every volume of
    [in_range_volume], the pH lies in [0, 14]: all of [0, 50] but for, with a
    weak acid, the volumes between 0 and 0.00045 mL and between 24.999999986
    and 25 mL, with a strong acid those between 25 - 5.1e-12 and 25 mL, and
    with a weak base those between 25.00000000999999 and 25.000000014 mL. *)
Theorem calculatePH_in_range (x : R) (acid base : ElectrolyteType) :
  in_range_volume acid base x ->
  0 <= calculatePH x acid base <= 14.
Proof.
  intros [Hacid | Hbase].
  - destruct acid.
    + apply calculatePH_strongAcid_on_scale; lra.
    + destruct Hacid as [E | B].
      * pose proof (calculatePH_weakAcid_start x base E). lra.
      * destruct (calculatePH_weakAcid_on_scale x base ltac:(lra)) as [L U].
        split; [apply L | apply U]; lra.
  - destruct (Rlt_le_dec x (25 + 1e-8)) as [W | A].
    + apply calculatePH_window_on_scale.
      destruct base; [lra | destruct Hbase; lra].
    + destruct base.
      * apply calculatePH_strongBase_on_scale. lra.
      * apply calculatePH_weakBase_on_scale; destruct Hbase; lra.
Qed.

Lemma calculatePH_in_range_witness :
  0 <= calculatePH 0.001 weak weak <= 14.
Proof.
  apply (calculatePH_in_range 0.001 weak weak).
  left. right. lra.
Defined.

(** C6 as stated fails: one millionth of a millilitre into a weak-acid /
    strong-base titration the buffer formula gives a negative pH. *)
Lemma calculatePH_negative_in_sweep :
  0 <= 0.000001 <= 50 /\ calculatePH 0.000001 weak strong < 0.
Proof.
  split; [lra |].
  value_at traced_WS_buffer.
  pose proof log10_K_enclosure as K.
  assert (Hpos : 0 < 0.000001 * 0.1 / (25 * 0.1 - 0.000001 * 0.1))
    by (apply Rdiv_lt_0_compat; lra).
  pose proof (log10_le_neg _ 7 Hpos ltac:(lra)) as U.
  simpl INR in U. atom_log10. lra.
Qed.

(** ** The bands that the formulas themselves take off the scale *)

(** A strong acid: above 14 once its excess is below 1e-14 mol/L. *)
Lemma calculatePH_strongAcid_above_scale (x : R) (base : ElectrolyteType) :
  25 - 4.9e-12 <= x <= 25 - 1e-14 -> 14 < calculatePH x strong base.
Proof.
  intros H.
  pose proof (calculatePH_strongAcid_on_scale x base ltac:(lra)) as S.
  pose proof (calculatePH_strongAcid_excess x base ltac:(lra)) as E.
  assert (Hpos : 0 < (25 * 0.1 - x * 0.1) / (25 + x)) by positive.
  pose proof (excessAcid_nonneg _ Hpos) as L.
  apply Rnot_le_lt. intros Hle.
  assert (Hin : / 10 ^ 14 * (25 + x) <= 25 * 0.1 - x * 0.1).
  { apply S. split; [| exact Hle]. rewrite E. apply L.
    apply quotient_le; lra. }
  lra.
Qed.

(** A weak acid: below 0 until the ratio of salt to acid reaches Ka. *)
Lemma calculatePH_weakAcid_below_scale (x : R) (base : ElectrolyteType) :
  0 < x <= 0.0004499 -> calculatePH x weak base < 0.
Proof.
  intros H.
  destruct (calculatePH_weakAcid_on_scale x base ltac:(lra)) as [L _].
  apply Rnot_le_lt. intros Hge. apply L in Hge. lra.
Qed.

(** A weak acid: above 14 once the ratio of salt to acid exceeds
    Ka * 1e14. *)
Lemma calculatePH_weakAcid_above_scale (x : R) (base : ElectrolyteType) :
  24.9999999862 <= x <= 25 - 1e-14 -> 14 < calculatePH x weak base.
Proof.
  intros H.
  destruct (calculatePH_weakAcid_on_scale x base ltac:(lra)) as [_ U].
  apply Rnot_le_lt. intros Hle. apply U in Hle. lra.
Qed.

(** A weak base: below 0 until the ratio of base to salt reaches Kw / Kb. *)
Lemma calculatePH_weakBase_below_scale (x : R) (acid : ElectrolyteType) :
  25 + 1e-8 <= x <= 25.0000000138 -> calculatePH x acid weak < 0.
Proof.
  intros H.
  pose proof (calculatePH_weakBase_on_scale x acid ltac:(lra)) as S.
  rewrite calculatePH_weakBase_buffer in * by lra.
  assert (Hpos : 0 < (x * 0.1 - 25 * 0.1) / (25 * 0.1)) by positive.
  pose proof (bufferBase_le_14 _ Hpos) as U.
  apply Rnot_le_lt. intros Hge.
  assert (Hin : / 10 ^ 14 * (25 * 0.1) <= 1.8e-5 * (x * 0.1 - 25 * 0.1)).
  { apply S. split; [exact Hge |]. apply U.
    assert ((x * 0.1 - 25 * 0.1) / (25 * 0.1) <= 1) by (apply quotient_le; lra).
    lra. }
  lra.
Qed.

(** * Monotonicity of the titration curve *)

Section Monotone.

Variables v1 v2 : R.
Hypothesis Hle : v1 <= v2.








End Monotone.

(** * Monotonicity across the formulas *)

Lemma square_le (a b : R) : 0 <= a -> a <= b -> a * a <= b * b.
Proof. intros H0 H. apply Rmult_le_compat; lra. Qed.

Section IntoAndOutOfTheWindow.

Variables v1 v2 : R.



End IntoAndOutOfTheWindow.

Section AcrossEquivalence.

Variables v1 v2 : R.
Hypothesis H1 : 0 <= v1 <= 25 - 1e-14.
Hypothesis H2 : 25 + 1e-8 <= v2.

Let a1 := (25 * 0.1 - v1 * 0.1) / (25 + v1).
Let r1 := v1 * 0.1 / (25 * 0.1 - v1 * 0.1).
Let o2 := (v2 * 0.1 - 25 * 0.1) / (25 + v2).
Let x2 := (v2 * 0.1 - 25 * 0.1) / (25 * 0.1).

(** From the excess of acid or the buffer of the weak acid to the excess of
    base or the buffer of the weak base: the order of the two values is that
    of two products of the moles and volumes. *)
Lemma calculatePH_across_equivalence (acid base : ElectrolyteType) :
  (acid, base) <> (weak, weak) ->
  calculatePH v1 acid base <= calculatePH v2 acid base
  <-> across_equivalence_by 1 acid base v1 v2.
Proof.
  intros HW.
  assert (Ha : 0 < a1) by (unfold a1; positive).
  assert (Ho : 0 < o2) by (unfold o2; positive).
  assert (Hx : 0 < x2) by (unfold x2; positive).
  destruct acid, base; unfold across_equivalence_by; [| | | contradiction HW; reflexivity].
  - rewrite (calculatePH_strongAcid_excess v1) by lra.
    rewrite (calculatePH_strongBase_excess v2) by lra.
    fold a1 o2. rewrite (excessAcid_le_excessBase a1 o2 Ha Ho).
    unfold a1, o2. rewrite quotient_product by lra.
    rewrite quotient_ge_iff by positive.
    split; intros H; lra.
  - rewrite (calculatePH_strongAcid_excess v1) by lra.
    rewrite (calculatePH_weakBase_buffer v2) by lra.
    fold a1 x2. rewrite (excessAcid_le_bufferBase a1 x2 Ha Hx).
    unfold a1, x2. rewrite quotient_product by lra.
    replace (1.8e-5 * ((25 * 0.1 - v1 * 0.1) * (v2 * 0.1 - 25 * 0.1) / ((25 + v1) * (25 * 0.1))))
      with (1.8e-5 * ((25 * 0.1 - v1 * 0.1) * (v2 * 0.1 - 25 * 0.1)) / ((25 + v1) * (25 * 0.1)))
      by (unfold Rdiv; ring).
    rewrite quotient_ge_iff by positive.
    split; intros H; lra.
  - destruct (Req_EM_T v1 0) as [E | N].
    + pose proof (calculatePH_weakAcid_start v1 strong E) as S.
      rewrite (calculatePH_strongBase_excess v2) by lra.
      assert (O : / 10 ^ 11 <= o2) by (unfold o2; apply quotient_ge; lra).
      apply (log10_le_iff (/ 10 ^ 11) o2) in O; [| positive | exact Ho].
      rewrite log10_1e, INR_IZR_INZ in O. simpl Z.of_nat in O. fold o2.
      split; intros _; [nra | lra].
    + assert (Hr : 0 < r1) by (unfold r1; positive).
      rewrite (calculatePH_weakAcid_buffer v1) by lra.
      rewrite (calculatePH_strongBase_excess v2) by lra.
      fold r1 o2. rewrite (bufferAcid_le_excessBase o2 r1 Ho Hr).
      unfold r1, o2.
      replace (/ 10 ^ 14 * (v1 * 0.1 / (25 * 0.1 - v1 * 0.1)))
        with (/ 10 ^ 14 * (v1 * 0.1) / (25 * 0.1 - v1 * 0.1))
        by (unfold Rdiv; ring).
      replace (1.8e-5 * ((v2 * 0.1 - 25 * 0.1) / (25 + v2)))
        with (1.8e-5 * (v2 * 0.1 - 25 * 0.1) / (25 + v2))
        by (unfold Rdiv; ring).
      rewrite quotient_le_iff by lra.
      replace (1.8e-5 * (v2 * 0.1 - 25 * 0.1) / (25 + v2) * (25 * 0.1 - v1 * 0.1))
        with (1.8e-5 * (v2 * 0.1 - 25 * 0.1) * (25 * 0.1 - v1 * 0.1) / (25 + v2))
        by (unfold Rdiv; ring).
      rewrite quotient_ge_iff by lra.
      split; intros H; lra.
Qed.

End AcrossEquivalence.




(** * Monotonicity of the titration curve: the stated property *)




(** ** The pairs left out of [comparable_volumes] by the formulas *)

(** A weak acid: the first 0.33 mL of base lower the pH below its value at
    the start. *)
Lemma calculatePH_weakAcid_falls_from_start (v2 : R) (base : ElectrolyteType) :
  0 < v2 <= 0.33096 ->
  calculatePH v2 weak base < calculatePH 0 weak base.
Proof.
  intros H. apply Rnot_le_lt. intros Hle.
  assert (S : calculatePH 0 weak base = - Math.log10 (Math.sqrt (1.8e-5 * 0.1))).
  { destruct base.
    - value_at traced_WS_initial. reflexivity.
    - value_at traced_WW_initial. reflexivity. }
  rewrite S, (calculatePH_weakAcid_buffer v2) in Hle by lra.
  assert (Hpos : 0 < v2 * 0.1 / (25 * 0.1 - v2 * 0.1)) by positive.
  assert (R1 : v2 * 0.1 / (25 * 0.1 - v2 * 0.1) <= 0.0134161)
    by (apply quotient_le; lra).
  apply weakStart_le_bufferAcid in Hle; [| exact Hpos].
  pose proof (square_le _ 0.0134161 (Rlt_le _ _ Hpos) R1). lra.
Qed.

(** Just before the window the pH is above the value of the window. *)
Lemma calculatePH_falls_into_window (acid base : ElectrolyteType) (v1 v2 : R) :
  (acid, base) <> (weak, weak) ->
  match acid, base with
  | strong, strong => 24.9999501
  | strong, weak => 24.997365
  | weak, _ => 24.9973651
  end <= v1 ->
  v1 <= 25 - 1e-14 ->
  25 <= v2 < 25 + 1e-8 ->
  calculatePH v2 acid base < calculatePH v1 acid base.
Proof.
  intros HW L B W. apply Rnot_le_lt. intros Hle.
  pose proof (window_hydrolysis v2 W) as Q.
  destruct acid, base; [| | | contradiction HW; reflexivity].
  - rewrite (calculatePH_strongAcid_excess v1) in Hle by lra.
    rewrite (calculatePH_SS_equivalence v2) in Hle by lra.
    apply excessAcid_le_7 in Hle; [| positive].
    apply quotient_ge_iff in Hle; lra.
  - rewrite (calculatePH_strongAcid_excess v1) in Hle by lra.
    rewrite (calculatePH_SW_window v2) in Hle by lra.
    assert (Hpos : 0 < (25 * 0.1 - v1 * 0.1) / (25 + v1)) by positive.
    assert (A1 : (25 * 0.1 - v1 * 0.1) / (25 + v1) <= 5.2703e-6)
      by (apply quotient_le; lra).
    apply excessAcid_le_hydrolysis in Hle; [| exact Hpos | lra].
    pose proof (square_le _ 5.2703e-6 (Rlt_le _ _ Hpos) A1). lra.
  - rewrite (calculatePH_weakAcid_buffer v1) in Hle by lra.
    rewrite (calculatePH_WS_window v2) in Hle by lra.
    assert (R1 : 9487 <= v1 * 0.1 / (25 * 0.1 - v1 * 0.1))
      by (apply quotient_ge; lra).
    apply bufferAcid_le_hydrolysis in Hle; [| lra | lra].
    pose proof (square_le 9487 _ ltac:(lra) R1). lra.
Qed.

(** Just after the window the pH is below the value of the window. *)
Lemma calculatePH_falls_out_of_window (acid base : ElectrolyteType) (v1 v2 : R) :
  (acid, base) <> (weak, weak) ->
  25 <= v1 < 25 + 1e-8 ->
  25 + 1e-8 <= v2 ->
  v2 <= match acid, base with
        | strong, strong => 25.00005
        | strong, weak => 25.0026352
        | weak, _ => 25.0026353
        end ->
  calculatePH v2 acid base < calculatePH v1 acid base.
Proof.
  intros HW W A U. apply Rnot_le_lt. intros Hle.
  pose proof (window_hydrolysis v1 W) as Q.
  destruct acid, base; [| | | contradiction HW; reflexivity].
  - rewrite (calculatePH_strongBase_excess v2) in Hle by lra.
    rewrite (calculatePH_SS_equivalence v1) in Hle by lra.
    apply seven_le_excessBase in Hle; [| positive].
    apply quotient_ge_iff in Hle; lra.
  - rewrite (calculatePH_weakBase_buffer v2) in Hle by lra.
    rewrite (calculatePH_SW_window v1) in Hle by lra.
    assert (Hpos : 0 < (v2 * 0.1 - 25 * 0.1) / (25 * 0.1)) by positive.
    assert (X1 : (v2 * 0.1 - 25 * 0.1) / (25 * 0.1) <= 1.05408e-4)
      by (apply quotient_le; lra).
    apply hydrolysis_le_bufferBase in Hle; [| exact Hpos | lra].
    pose proof (square_le _ 1.05408e-4 (Rlt_le _ _ Hpos) X1) as S.
    set (x := (v2 * 0.1 - 25 * 0.1) / (25 * 0.1)) in *.
    set (q := 1e-14 / 1.8e-5 * (25 * 0.1 / (25 + v1))) in *.
    assert (P : q * (x * x) <= 2.77777778e-11 * (1.05408e-4 * 1.05408e-4)).
    { apply Rmult_le_compat; try lra. apply Rmult_le_pos; lra. }
    lra.
  - rewrite (calculatePH_strongBase_excess v2) in Hle by lra.
    rewrite (calculatePH_WS_window v1) in Hle by lra.
    assert (Hpos : 0 < (v2 * 0.1 - 25 * 0.1) / (25 + v2)) by positive.
    assert (O1 : (v2 * 0.1 - 25 * 0.1) / (25 + v2) <= 5.270323e-6)
      by (apply quotient_le; lra).
    apply hydrolysis_le_excessBase in Hle; [| exact Hpos | lra].
    pose proof (square_le _ 5.270323e-6 (Rlt_le _ _ Hpos) O1). lra.
Qed.

(** Inside the window the weak/strong value falls as the volume grows: the
    salt is diluted by the total volume. *)
Lemma calculatePH_WS_window_falls (v1 v2 : R) :
  25 <= v1 -> v1 < v2 -> v2 < 25 + 1e-8 ->
  calculatePH v2 weak strong < calculatePH v1 weak strong.
Proof.
  intros H1 H12 H2.
  rewrite (calculatePH_WS_window v1), (calculatePH_WS_window v2) by lra.
  assert (Math.log10 (Math.sqrt (1e-14 / 1.8e-5 * (25 * 0.1 / (25 + v2))))
          < Math.log10 (Math.sqrt (1e-14 / 1.8e-5 * (25 * 0.1 / (25 + v1))))).
  { apply hydrolysis_decreasing; [positive |].
    apply Rmult_lt_compat_l; [lra |].
    unfold Rdiv. apply Rmult_lt_compat_l; [lra |].
    apply Rinv_lt_contravar; [apply Rmult_lt_0_compat |]; lra. }
  lra.
Qed.

(** Across the window, the pairs whose products are in the other order. *)
Lemma calculatePH_falls_across_equivalence (acid base : ElectrolyteType) (v1 v2 : R) :
  (acid, base) <> (weak, weak) ->
  0 <= v1 <= 25 - 1e-14 -> 25 + 1e-8 <= v2 ->
  ~ across_equivalence_by 1 acid base v1 v2 ->
  calculatePH v2 acid base < calculatePH v1 acid base.
Proof.
  intros HW H1 H2 N. apply Rnot_le_lt. intros Hle. apply N.
  apply calculatePH_across_equivalence; assumption.
Qed.

(** * The curve sampler *)

Section Sampler.

Variables acid base : ElectrolyteType.

Local Abbreviation pt := (point acid base).

(** The inner loop pushes five points and stops at the sixth test. *)
Lemma fineLoop_run (fuel : nat) (v0 : R) (points : list GraphPoint) :
  (6 <= fuel)%nat ->
  fineLoop acid base fuel v0 v0 points
  = Some (points ++ [pt v0; pt (v0 + 0.1); pt (v0 + 0.1 + 0.1);
                     pt (v0 + 0.1 + 0.1 + 0.1); pt (v0 + 0.1 + 0.1 + 0.1 + 0.1)]).
Proof.
  intros Hfuel.
  do 6 (destruct fuel as [| fuel]; [lia |]).
  cbn [fineLoop].
  rewrite !num_lt_true by lra.
  rewrite num_lt_false by lra.
  rewrite <- !app_assoc. reflexivity.
Qed.

Lemma coarseLoop_plain (fuel : nat) (v0 : R) (points : list GraphPoint) :
  v0 <= 50 -> v0 <= 24 \/ 26 <= v0 ->
  coarseLoop acid base (S fuel) v0 points = coarseLoop acid base fuel (v0 + 0.5) (points ++ [pt v0]).
Proof.
  intros H50 Hout. cbn [coarseLoop].
  rewrite num_le_true by assumption.
  destruct Hout as [Hlo | Hhi].
  - rewrite num_gt_false by assumption. reflexivity.
  - rewrite (num_lt_false v0 26) by assumption. rewrite andb_false_r. reflexivity.
Qed.

Lemma coarseLoop_fine (fuel : nat) (v0 : R) (points : list GraphPoint) :
  (6 <= fuel)%nat -> 24 < v0 < 26 ->
  coarseLoop acid base (S fuel) v0 points
  = coarseLoop acid base fuel (v0 + 0.5)
      (points ++ [pt v0; pt (v0 + 0.1); pt (v0 + 0.1 + 0.1);
                  pt (v0 + 0.1 + 0.1 + 0.1); pt (v0 + 0.1 + 0.1 + 0.1 + 0.1)]).
Proof.
  intros Hfuel Hin. cbn [coarseLoop].
  rewrite num_le_true by lra.
  rewrite num_gt_true, num_lt_true by lra. cbn [andb].
  rewrite fineLoop_run by assumption. reflexivity.
Qed.

Lemma coarseLoop_exit (fuel : nat) (v0 : R) (points : list GraphPoint) :
  50 < v0 -> coarseLoop acid base (S fuel) v0 points = Some points.
Proof.
  intros H. cbn [coarseLoop]. rewrite num_le_false by assumption. reflexivity.
Qed.

(** [n] coarse iterations outside the refined window. *)
Lemma coarseLoop_plain_run (n : nat) :
  forall (fuel : nat) (v0 : R) (points : list GraphPoint),
    (forall i, (i < n)%nat ->
               v0 + INR i * 0.5 <= 50
               /\ (v0 + INR i * 0.5 <= 24 \/ 26 <= v0 + INR i * 0.5)) ->
    coarseLoop acid base (n + fuel) v0 points
    = coarseLoop acid base fuel (v0 + INR n * 0.5) (points ++ map pt (sweep v0 0.5 n)).
Proof.
  induction n as [| n IH]; intros fuel v0 points Hout.
  - cbn [sweep List.seq map Nat.add INR]. rewrite app_nil_r.
    f_equal. lra.
  - change (S n + fuel)%nat with (S (n + fuel)).
    assert (H0 : v0 <= 50 /\ (v0 <= 24 \/ 26 <= v0)).
    { specialize (Hout 0%nat ltac:(lia)). cbn [INR] in Hout.
      replace (v0 + 0 * 0.5) with v0 in Hout by lra. exact Hout. }
    rewrite coarseLoop_plain by tauto.
    rewrite IH.
    + rewrite S_INR. f_equal; [lra |].
      rewrite <- app_assoc. f_equal.
      unfold sweep. cbn [List.seq map app INR].
      f_equal; [f_equal; lra |].
      rewrite <- seq_shift, !map_map.
      apply map_ext. intros i. rewrite S_INR. f_equal. lra.
    + intros i Hi. specialize (Hout (S i) ltac:(lia)). rewrite S_INR in Hout.
      replace (v0 + 0.5 + INR i * 0.5) with (v0 + (INR i + 1) * 0.5) by lra.
      exact Hout.
Qed.

Lemma INR_below (i n : nat) : (i < S n)%nat -> 0 <= INR i <= INR n.
Proof.
  intros H. split; [apply pos_INR | apply le_INR; lia].
Qed.

(** The refined window as a sweep by 0.1 from 24.5. *)
Lemma fine_points_sweep :
  [pt 24.5; pt (24.5 + 0.1); pt (24.5 + 0.1 + 0.1); pt (24.5 + 0.1 + 0.1 + 0.1);
   pt (24.5 + 0.1 + 0.1 + 0.1 + 0.1)]
  ++ [pt 25; pt (25 + 0.1); pt (25 + 0.1 + 0.1); pt (25 + 0.1 + 0.1 + 0.1);
      pt (25 + 0.1 + 0.1 + 0.1 + 0.1)]
  ++ [pt 25.5; pt (25.5 + 0.1); pt (25.5 + 0.1 + 0.1); pt (25.5 + 0.1 + 0.1 + 0.1);
      pt (25.5 + 0.1 + 0.1 + 0.1 + 0.1)]
  = map pt (sweep 24.5 0.1 15).
Proof.
  unfold sweep. cbn [List.seq map app INR].
  repeat (apply f_equal2; [f_equal; lra |]). reflexivity.
Qed.

(** With 102 units of fuel or more the loop runs to its end: 49 coarse
    iterations up to 24, three refined ones at 24.5, 25 and 25.5, 49 coarse
    ones from 26 to 50, and the failing test at 50.5. *)
Lemma coarseLoop_from_start (fuel : nat) :
  (102 <= fuel)%nat ->
  coarseLoop acid base fuel 0 [] = Some (map pt sampledVolumes).
Proof.
  intros Hfuel.
  replace fuel with (49 + S (S (S (49 + S (fuel - 102)))))%nat by lia.
  rewrite coarseLoop_plain_run.
  2:{ intros i Hi. pose proof (INR_below i 48 Hi) as B.
      replace (INR 48) with 48 in B by (rewrite INR_IZR_INZ; reflexivity). lra. }
  replace (0 + INR 49 * 0.5) with 24.5 by (rewrite INR_IZR_INZ; cbn [Z.of_nat Pos.of_succ_nat Pos.succ]; lra).
  rewrite coarseLoop_fine by (lia || lra).
  replace (24.5 + 0.5) with 25 by lra.
  rewrite coarseLoop_fine by (lia || lra).
  replace (25 + 0.5) with 25.5 by lra.
  rewrite coarseLoop_fine by (lia || lra).
  replace (25.5 + 0.5) with 26 by lra.
  rewrite coarseLoop_plain_run.
  2:{ intros i Hi. pose proof (INR_below i 48 Hi) as B.
      replace (INR 48) with 48 in B by (rewrite INR_IZR_INZ; reflexivity). lra. }
  rewrite coarseLoop_exit
    by (rewrite INR_IZR_INZ; cbn [Z.of_nat Pos.of_succ_nat Pos.succ]; lra).
  f_equal. unfold sampledVolumes.
  rewrite !map_app, <- fine_points_sweep.
  cbn [app]. rewrite <- !app_assoc. reflexivity.
Qed.

End Sampler.

Lemma sampledVolumes_first : hd_error sampledVolumes = Some 0.
Proof. cbn [sampledVolumes sweep List.seq map app hd_error INR]. f_equal. lra. Qed.

Lemma sampledVolumes_last : last sampledVolumes 0 = 50.
Proof.
  unfold sampledVolumes. rewrite app_assoc.
  change 49%nat with (S 48) at 2. unfold sweep at 3.
  rewrite seq_S, map_app, app_assoc. cbn [map]. rewrite last_last.
  rewrite INR_IZR_INZ. cbn [Nat.add Z.of_nat Pos.of_succ_nat Pos.succ]. lra.
Qed.

Lemma sampledVolumes_resolution :
  Forall (resolution_from 24.5) (neighbours sampledVolumes).
Proof.
  cbn [sampledVolumes sweep List.seq map app neighbours tl combine INR].
  repeat (apply Forall_cons; [unfold resolution_from; lra |]).
  apply Forall_nil.
Qed.

Lemma point_volumes (acid base : ElectrolyteType) (l : list R) :
  map v (map (point acid base) l) = l.
Proof. rewrite map_map. cbn [point v]. apply map_id. Qed.

Lemma point_pH (acid base : ElectrolyteType) (l : list R) :
  Forall (fun p => ph p = calculatePH (v p) acid base) (map (point acid base) l).
Proof. apply Forall_map, Forall_forall. intros x _. reflexivity. Qed.

(** C4 as amended. For every strength combination the sampler, given 102
    units of fuel or more, returns the points of [sampledVolumes] in order:
    the volumes start at 0, end at 50, increase strictly, are 0.5 mL apart
    outside the window from 24.5 to 26 and 0.1 mL apart inside it, and each
    point carries the pH that [calculatePH] gives at its volume. *)
Theorem graphPoints_sampling (fuel : nat) (state : TitrationState) :
  (102 <= fuel)%nat ->
  exists points,
    graphPoints fuel state = Some points
    /\ map v points = sampledVolumes
    /\ Forall (fun p => ph p = calculatePH (v p) (acidType state) (baseType state)) points
    /\ hd_error (map v points) = Some 0
    /\ last (map v points) 0 = 50
    /\ Forall (resolution_from 24.5) (neighbours (map v points)).
Proof.
  intros Hfuel.
  exists (map (point (acidType state) (baseType state)) sampledVolumes).
  rewrite point_volumes.
  split; [apply coarseLoop_from_start, Hfuel |].
  split; [reflexivity |].
  split; [apply point_pH |].
  split; [exact sampledVolumes_first |].
  split; [exact sampledVolumes_last | exact sampledVolumes_resolution].
Qed.

Lemma graphPoints_sampling_witness :
  exists points,
    graphPoints 102 initialState = Some points
    /\ map v points = sampledVolumes
    /\ Forall (fun p => ph p = calculatePH (v p) strong strong) points
    /\ hd_error (map v points) = Some 0
    /\ last (map v points) 0 = 50
    /\ Forall (resolution_from 24.5) (neighbours (map v points)).
Proof. apply (graphPoints_sampling 102 initialState). lia. Defined.

(** C4 as stated fails at the lower end of the window: the sampled volumes
    24 and 24.5 are neighbours, both lie in [24, 26], and they are 0.5 mL
    apart, so the resolution inside [24, 26] is not 0.1 mL throughout. *)
Lemma graphPoints_coarse_step_in_window :
  exists points,
    graphPoints 102 initialState = Some points
    /\ In (24, 24.5) (neighbours (map v points))
    /\ ~ resolution_from 24 (24, 24.5).
Proof.
  exists (map (point strong strong) sampledVolumes).
  split; [apply coarseLoop_from_start; lia |].
  split.
  - rewrite point_volumes.
    cbn [sampledVolumes sweep List.seq map app neighbours tl combine INR].
    do 48 right. left. f_equal; lra.
  - unfold resolution_from. lra.
Qed.

(** * The explanation card *)

Ltac run_explanation :=
  unfold getExplanation_traced, getExplanation_body;
  cbv beta iota zeta delta [ElectrolyteType_eqb andb];
  repeat (first [ guard_true | guard_false ]; step_body);
  try reflexivity.

Section ExplanationSites.

Variable vol : R.

Lemma explanationSite_initial (acid base : ElectrolyteType) :
  (acid, base) <> (weak, weak) -> vol = 0 ->
  explanation_phase (explanationSite vol acid base) = Some Initial.
Proof.
  intros HW H. unfold explanationSite.
  destruct acid, base; try (contradiction HW; reflexivity); run_explanation.
Qed.

Lemma explanationSite_before (acid base : ElectrolyteType) :
  (acid, base) <> (weak, weak) -> vol <> 0 -> vol < 25 ->
  explanation_phase (explanationSite vol acid base) = Some BeforeEquivalence.
Proof.
  intros HW H0 H. unfold explanationSite.
  destruct acid, base; try (contradiction HW; reflexivity); run_explanation.
Qed.

Lemma explanationSite_equivalence (acid base : ElectrolyteType) :
  (acid, base) <> (weak, weak) -> 25 <= vol < 25.1 ->
  explanation_phase (explanationSite vol acid base) = Some AtEquivalence.
Proof.
  intros HW H. unfold explanationSite.
  destruct acid, base; try (contradiction HW; reflexivity); run_explanation.
Qed.

Lemma explanationSite_after (acid base : ElectrolyteType) :
  (acid, base) <> (weak, weak) -> 25.1 <= vol ->
  explanation_phase (explanationSite vol acid base) = Some AfterEquivalence.
Proof.
  intros HW H. unfold explanationSite.
  destruct acid, base; try (contradiction HW; reflexivity); run_explanation.
Qed.

Lemma explanationSite_weak_weak : explanationSite vol weak weak = E_default.
Proof. unfold explanationSite. run_explanation. Qed.

End ExplanationSites.

Section EnginePhases.

Variable vol : R.
Variables acid base : ElectrolyteType.

Lemma returnSite_phase_before : 0 < vol < 25 ->
  site_phase (returnSite vol acid base) = Some BeforeEquivalence.
Proof.
  intros H. unfold returnSite. destruct acid, base.
  - rewrite traced_SS_excessAcid by lra. reflexivity.
  - rewrite traced_SW_excessAcid by lra. reflexivity.
  - rewrite traced_WS_buffer by lra. reflexivity.
  - rewrite traced_WW_bufferAcid by lra. reflexivity.
Qed.

Lemma returnSite_phase_equivalence : 25 <= vol < 25 + 1e-8 ->
  site_phase (returnSite vol acid base) = Some AtEquivalence.
Proof.
  intros H. unfold returnSite. destruct acid, base.
  - rewrite traced_SS_equivalence by lra. reflexivity.
  - rewrite traced_SW_equivalence by lra. reflexivity.
  - rewrite traced_WS_equivalence by lra. reflexivity.
  - rewrite traced_WW_equivalence by lra. reflexivity.
Qed.

Lemma returnSite_phase_after : 25 + 1e-8 <= vol ->
  site_phase (returnSite vol acid base) = Some AfterEquivalence.
Proof.
  intros H. unfold returnSite. destruct acid, base.
  - rewrite traced_SS_excessBase by lra. reflexivity.
  - rewrite traced_SW_buffer by lra. reflexivity.
  - rewrite traced_WS_excessBase by lra. reflexivity.
  - rewrite traced_WW_bufferBase by lra. reflexivity.
Qed.

End EnginePhases.

(** X1. The card of the weak/weak combination, the last [return] of
    [getExplanation], is returned for every volume when both electrolytes are
    weak and for no volume otherwise. *)
Theorem getExplanation_default_iff_weak_weak (vol : R) (acid base : ElectrolyteType) :
  explanationSite vol acid base = E_default <-> acid = weak /\ base = weak.
Proof.
  split.
  - intros Hdef.
    destruct acid, base; [exfalso | exfalso | exfalso | split; reflexivity].
    all: assert (Hphase : explanation_phase (explanationSite vol _ _) = None)
        by (rewrite Hdef; reflexivity).
    all: destruct (Req_EM_T vol 0) as [E | N];
      [ rewrite explanationSite_initial in Hphase by (assumption || discriminate);
        discriminate Hphase |].
    all: destruct (Rlt_dec vol 25) as [L | G];
      [ rewrite explanationSite_before in Hphase by (assumption || discriminate);
        discriminate Hphase |].
    all: destruct (Rlt_dec vol 25.1) as [L' | G'];
      [ rewrite explanationSite_equivalence in Hphase by (lra || discriminate)
      | rewrite explanationSite_after in Hphase by (lra || discriminate) ];
      discriminate Hphase.
  - intros [-> ->]. apply explanationSite_weak_weak.
Qed.

(** X2. For the three combinations that have a card of their own and a
    positive volume up to 25 - 1e-14 mL, in the equivalence window from 25 to
    25.00000000999999 mL, or from 25.1 mL on, the card explains the phase of
    the titration (before, at or after equivalence) from which [calculatePH]
    returns the pH shown next to it. *)
Theorem explanation_agrees_with_engine (vol : R) (acid base : ElectrolyteType) :
  (acid, base) <> (weak, weak) ->
  0 < vol ->
  vol <= 25 - 1e-14 \/ 25 <= vol <= 25.00000000999999 \/ 25.1 <= vol ->
  explanation_phase (explanationSite vol acid base)
  = site_phase (returnSite vol acid base).
Proof.
  intros HW Hpos [Hbefore | [Hwin | Hafter]].
  - rewrite explanationSite_before by (assumption || lra).
    rewrite returnSite_phase_before by lra. reflexivity.
  - rewrite explanationSite_equivalence by (assumption || lra).
    rewrite returnSite_phase_equivalence by lra. reflexivity.
  - rewrite explanationSite_after by assumption.
    rewrite returnSite_phase_after by lra. reflexivity.
Qed.

Lemma explanation_agrees_with_engine_witness :
  explanation_phase (explanationSite 12.5 weak strong)
  = site_phase (returnSite 12.5 weak strong).
Proof.
  apply (explanation_agrees_with_engine 12.5 weak strong).
  - discriminate.
  - lra.
  - left. lra.
Defined.

(** X3. From 25 + 1e-8 mL up to 25.1 mL the card still explains the
    equivalence point (its test is [|vol - 25| < 0.1]) while [calculatePH]
    already returns from its after-equivalence statement (its test is
    [|molesB - molesA| < 1e-9]). *)
Theorem explanation_lags_behind_engine (vol : R) (acid base : ElectrolyteType) :
  (acid, base) <> (weak, weak) ->
  25 + 1e-8 <= vol < 25.1 ->
  explanation_phase (explanationSite vol acid base) = Some AtEquivalence
  /\ site_phase (returnSite vol acid base) = Some AfterEquivalence.
Proof.
  intros HW H. split.
  - apply explanationSite_equivalence; [assumption | lra].
  - apply returnSite_phase_after. lra.
Qed.

Lemma explanation_lags_behind_engine_witness :
  explanation_phase (explanationSite 25.05 strong strong) = Some AtEquivalence
  /\ site_phase (returnSite 25.05 strong strong) = Some AfterEquivalence.
Proof.
  apply (explanation_lags_behind_engine 25.05 strong strong).
  - discriminate.
  - lra.
Defined.

(** * Further properties of the pH engine *)

Lemma log10_gt_neg (x : R) (n : nat) : / 10 ^ n < x -> - INR n < Math.log10 x.
Proof.
  intros H.
  assert (Hp : 0 < 10 ^ n) by (apply pow_lt; lra).
  rewrite <- (log10_pow10 n), <- log10_inv by assumption.
  apply log10_lt; [apply Rinv_0_lt_compat |]; assumption.
Qed.

Lemma log10_quotient_swap (a b : R) : 0 < a -> 0 < b ->
  Math.log10 (a / b) + Math.log10 (b / a) = 0.
Proof.
  intros Ha Hb. rewrite !log10_div by assumption. ring.
Qed.

(** X4. Before the equivalence volume, up to 25 - 1e-14 mL, the strength of
    the base plays no part: the pH of an acid is the same under a strong and
    under a weak titrant. *)
Theorem base_strength_irrelevant_before (vBase : R) (acid : ElectrolyteType) :
  0 <= vBase <= 25 - 1e-14 ->
  calculatePH vBase acid strong = calculatePH vBase acid weak.
Proof.
  intros H. unfold calculatePH.
  destruct acid; destruct (Req_EM_T vBase 0) as [E | N].
  - rewrite traced_SS_excessAcid by lra. rewrite traced_SW_initial by assumption.
    cbn [snd]. subst vBase. unfold_consts. do 2 f_equal. lra.
  - rewrite traced_SS_excessAcid by lra. rewrite traced_SW_excessAcid by lra.
    reflexivity.
  - rewrite traced_WS_initial by assumption. rewrite traced_WW_initial by assumption.
    reflexivity.
  - rewrite traced_WS_buffer by lra. rewrite traced_WW_bufferAcid by lra.
    reflexivity.
Qed.

Lemma base_strength_irrelevant_before_witness :
  calculatePH 10 weak strong = calculatePH 10 weak weak.
Proof. apply (base_strength_irrelevant_before 10 weak). lra. Defined.

(** X5. Past the equivalence window the strength of the acid plays no part:
    the pH under a base is the same for a strong and for a weak acid. *)
Theorem acid_strength_irrelevant_after (vBase : R) (base : ElectrolyteType) :
  25 + 1e-8 <= vBase ->
  calculatePH vBase strong base = calculatePH vBase weak base.
Proof.
  intros H. unfold calculatePH. destruct base.
  - rewrite traced_SS_excessBase by lra. rewrite traced_WS_excessBase by lra.
    reflexivity.
  - rewrite traced_SW_buffer by lra. rewrite traced_WW_bufferBase by lra.
    reflexivity.
Qed.

Lemma acid_strength_irrelevant_after_witness :
  calculatePH 30 strong weak = calculatePH 30 weak weak.
Proof. apply (acid_strength_irrelevant_after 30 weak). lra. Defined.

(** X6. The buffer branch of a weak acid is symmetric about the
    half-equivalence volume: from 0.1 mL to 24.9 mL the pH at [vBase] and at
    [25 - vBase] add up to twice the pKa, so that at 12.5 mL the pH is the
    pKa itself. *)
Theorem weak_acid_buffer_symmetry (vBase : R) (base : ElectrolyteType) :
  0.1 <= vBase <= 24.9 ->
  calculatePH vBase weak base + calculatePH (25 - vBase) weak base
  = 2 * - Math.log10 KA_ACETIC.
Proof.
  intros H.
  assert (Hsym : Math.log10 (vBase * 0.1 / (25 * 0.1 - vBase * 0.1))
                 + Math.log10 ((25 - vBase) * 0.1 / (25 * 0.1 - (25 - vBase) * 0.1)) = 0).
  { replace ((25 - vBase) * 0.1) with (25 * 0.1 - vBase * 0.1) by lra.
    replace (25 * 0.1 - (25 * 0.1 - vBase * 0.1)) with (vBase * 0.1) by lra.
    apply log10_quotient_swap; lra. }
  unfold calculatePH. destruct base.
  - rewrite !traced_WS_buffer by lra. cbn [snd]. unfold_consts.
    atom_log10. lra.
  - rewrite !traced_WW_bufferAcid by lra. cbn [snd]. unfold_consts.
    atom_log10. lra.
Qed.

Lemma weak_acid_buffer_symmetry_witness :
  calculatePH 5 weak strong + calculatePH (25 - 5) weak strong
  = 2 * - Math.log10 KA_ACETIC.
Proof. apply (weak_acid_buffer_symmetry 5 strong). lra. Defined.

(** The hydrolysis term at 25 mL, to two decimals. *)
Lemma hydrolysis_tight :
  -5.28 < Math.log10 (Math.sqrt (1e-14 / 1.8e-5 * (25 * 0.1 / (25 + 25)))) < -5.275.
Proof.
  rewrite log10_sqrt by lra.
  log10_upper_at (1e-14 / 1.8e-5 * (25 * 0.1 / (25 + 25))) 100%nat 1055%nat 0%nat Hu.
  log10_lower_at (1e-14 / 1.8e-5 * (25 * 0.1 / (25 + 25))) 100%nat 1056%nat 0%nat Hl.
  atom_log10. lra.
Qed.

(** X7. In the equivalence window, from 25 mL to 25.00000000999999 mL, the
    salt of a weak acid gives a basic solution and the salt of a weak base an
    acidic one, mirror images of each other about 7, which is the pH of the
    strong/strong and of the weak/weak combination there. *)
Theorem equivalence_window_values (vBase : R) :
  25 <= vBase <= 25.00000000999999 ->
  calculatePH vBase strong weak < 7 < calculatePH vBase weak strong
  /\ calculatePH vBase weak strong + calculatePH vBase strong weak = 14
  /\ calculatePH vBase strong strong = 7
  /\ calculatePH vBase weak weak = 7.
Proof.
  intros H.
  assert (Hlog : -7 < Math.log10 (Math.sqrt (1e-14 / 1.8e-5 * (25 * 0.1 / (25 + vBase)))) < 0).
  { assert (Hq : 0 < 25 * 0.1 / (25 + vBase)) by (apply Rdiv_lt_0_compat; lra).
    assert (Hq1 : 25 * 0.1 / (25 + vBase) <= 1) by (apply quotient_le; lra).
    assert (Hq2 : / 100 <= 25 * 0.1 / (25 + vBase)) by (apply quotient_ge; lra).
    assert (Hy : 0 < 1e-14 / 1.8e-5 * (25 * 0.1 / (25 + vBase)))
      by (apply Rmult_lt_0_compat; [lra | assumption]).
    rewrite log10_sqrt by assumption.
    assert (Hup : Math.log10 (1e-14 / 1.8e-5 * (25 * 0.1 / (25 + vBase))) < Math.log10 1).
    { apply log10_lt; [assumption |]. nra. }
    assert (Hlo : - INR 12 < Math.log10 (1e-14 / 1.8e-5 * (25 * 0.1 / (25 + vBase)))).
    { apply log10_gt_neg. nra. }
    rewrite log10_1 in Hup. rewrite INR_IZR_INZ in Hlo. simpl Z.of_nat in Hlo.
    atom_log10. lra. }
  unfold calculatePH.
  rewrite traced_SW_equivalence, traced_WS_equivalence, traced_SS_equivalence,
    traced_WW_equivalence by lra.
  cbn [snd]. unfold_consts. atom_log10. lra.
Qed.

Lemma equivalence_window_values_witness :
  calculatePH 25.000000005 strong weak < 7 < calculatePH 25.000000005 weak strong
  /\ calculatePH 25.000000005 weak strong + calculatePH 25.000000005 strong weak = 14
  /\ calculatePH 25.000000005 strong strong = 7
  /\ calculatePH 25.000000005 weak weak = 7.
Proof. apply (equivalence_window_values 25.000000005). lra. Defined.

(** X8. Whenever the equivalence point marker is drawn, the pH written for
    it in the component (8.72, 5.28 or 7.0) is the pH that [calculatePH]
    gives at 25 mL for the selected strengths, up to 0.005, and the marker
    lies inside the plot area. *)
Theorem eqPoint_matches_engine (state : TitrationState) :
  eqPointShown state = true ->
  Rabs (eqPointPH state - calculatePH 25 (acidType state) (baseType state)) <= 0.005
  /\ in_plot_area (eqPointX, eqPointY state).
Proof.
  intros Hshown.
  pose proof hydrolysis_tight as T.
  destruct state as [vol ind acid base].
  unfold eqPointShown, eqPointY, eqPointPH, eqPointX, in_plot_area, mapX, mapY in *.
  cbn [acidType baseType fst snd] in *.
  destruct acid, base; cbn [ElectrolyteType_eqb andb negb] in *; try discriminate Hshown.
  - rewrite calculatePH_SS_25. split; [| lra].
    unfold Rabs. destruct (Rcase_abs _); lra.
  - split; [| lra].
    value_at traced_SW_equivalence. atom_log10.
    unfold Rabs. destruct (Rcase_abs _); lra.
  - split; [| lra].
    value_at traced_WS_equivalence. atom_log10.
    unfold Rabs. destruct (Rcase_abs _); lra.
Qed.

Lemma eqPoint_matches_engine_witness :
  Rabs (eqPointPH (handle (SelectAcid weak) initialState)
        - calculatePH 25 weak strong) <= 0.005
  /\ in_plot_area (eqPointX, eqPointY (handle (SelectAcid weak) initialState)).
Proof.
  apply (eqPoint_matches_engine (handle (SelectAcid weak) initialState)).
  reflexivity.
Defined.

(** * Further properties of the indicator colour *)

Ltac run_colour :=
  unfold getSolutionColor; cbv beta zeta;
  cbv beta iota delta [INDICATORS rangeLow IndicatorType_eqb];
  repeat (first [ rewrite num_lt_true by lra
                | rewrite num_gt_true by lra
                | rewrite num_lt_false by lra
                | rewrite num_gt_false by lra ];
          step_body);
  try reflexivity.

Lemma getSolutionColor_inside (ph : R) (type : IndicatorType) :
  rangeLow (INDICATORS type) <= ph <= rangeHigh (INDICATORS type) ->
  getSolutionColor ph type
  = match type with
    | phenolphthalein => "#fbcfe8"
    | methylRed => "#f97316"
    | bromothymolBlue => "#22c55e"
    end.
Proof.
  intros H. destruct type; cbn [INDICATORS rangeLow rangeHigh] in H; run_colour.
Qed.

Lemma getSolutionColor_above (ph : R) (type : IndicatorType) :
  rangeHigh (INDICATORS type) < ph ->
  getSolutionColor ph type = colorHigh (INDICATORS type).
Proof.
  intros H. destruct type; cbn [INDICATORS rangeLow rangeHigh] in H; run_colour.
Qed.

(** X9. Above the upper end of its range every indicator shows the
    base-side colour of the catalog ([colorHigh]). *)
Theorem getSolutionColor_above_range (ph : R) (type : IndicatorType) :
  rangeHigh (INDICATORS type) < ph ->
  getSolutionColor ph type = colorHigh (INDICATORS type).
Proof. apply getSolutionColor_above. Qed.

Lemma getSolutionColor_above_range_witness :
  getSolutionColor 11 phenolphthalein = colorHigh (INDICATORS phenolphthalein).
Proof. apply (getSolutionColor_above_range 11 phenolphthalein). simpl. lra. Defined.

(** X10. Inside its range, ends included, every indicator shows a transition
    colour of its own, which is neither of its two cataloged colours nor the
    neutral colour shown below the range. *)
Theorem getSolutionColor_in_range (ph : R) (type : IndicatorType) :
  rangeLow (INDICATORS type) <= ph <= rangeHigh (INDICATORS type) ->
  getSolutionColor ph type
  = match type with
    | phenolphthalein => "#fbcfe8"
    | methylRed => "#f97316"
    | bromothymolBlue => "#22c55e"
    end
  /\ getSolutionColor ph type <> colorLow (INDICATORS type)
  /\ getSolutionColor ph type <> colorHigh (INDICATORS type)
  /\ getSolutionColor ph type <> "#f1f5f9".
Proof.
  intros H. rewrite getSolutionColor_inside by exact H.
  destruct type; cbn [INDICATORS colorLow colorHigh];
    (split; [reflexivity |]); repeat split; discriminate.
Qed.

Lemma getSolutionColor_in_range_witness :
  getSolutionColor 7.0 bromothymolBlue = "#22c55e"
  /\ getSolutionColor 7.0 bromothymolBlue <> colorLow (INDICATORS bromothymolBlue)
  /\ getSolutionColor 7.0 bromothymolBlue <> colorHigh (INDICATORS bromothymolBlue)
  /\ getSolutionColor 7.0 bromothymolBlue <> "#f1f5f9".
Proof. apply (getSolutionColor_in_range 7.0 bromothymolBlue). simpl. lra. Defined.

(** X11. The acid-side colours written in the per-indicator branches, clear
    ['#f8fafc'] and red ['#ef4444'], are never returned, for any pH and any
    indicator: the first statement returns before those branches. *)
Theorem getSolutionColor_never_acid_side (ph : R) (type : IndicatorType) :
  getSolutionColor ph type <> "#f8fafc"
  /\ getSolutionColor ph type <> "#ef4444".
Proof.
  destruct (Rlt_dec ph (rangeLow (INDICATORS type))) as [Hlow | Hnlow].
  - rewrite (getSolutionColor_below_range ph type Hlow). split; discriminate.
  - destruct (Rlt_dec (rangeHigh (INDICATORS type)) ph) as [Hhigh | Hnhigh].
    + rewrite (getSolutionColor_above ph type Hhigh).
      destruct type; cbn [INDICATORS colorHigh]; split; discriminate.
    + rewrite (getSolutionColor_inside ph type) by lra.
      destruct type; split; discriminate.
Qed.

(** X12. With no titrant added, as in the initial state, after a reset and
    after every change of strength, the flask shows the neutral colour
    ['#f1f5f9'] whatever the indicator and the strengths. *)
Theorem currentColor_at_start (state : TitrationState) :
  addedBaseVol state = 0 -> currentColor state = "#f1f5f9".
Proof.
  intros H0. unfold currentColor, currentPH. rewrite H0.
  apply getSolutionColor_below_range.
  assert (Hph : calculatePH 0 (acidType state) (baseType state) <= 4).
  { destruct (acidType state).
    - pose proof (calculatePH_strongAcid_before 0 (baseType state) ltac:(lra)). lra.
    - pose proof (calculatePH_weakAcid_start 0 (baseType state) eq_refl). lra. }
  destruct (indicator state); cbn [INDICATORS rangeLow]; lra.
Qed.

Lemma currentColor_at_start_witness :
  currentColor (handle (SelectBase weak) (handle (ClickVolume 5) initialState)) = "#f1f5f9".
Proof.
  apply (currentColor_at_start
           (handle (SelectBase weak) (handle (ClickVolume 5) initialState))).
  reflexivity.
Defined.

Lemma excessBase_above_10 (x : R) : 25.1 <= x <= 50 ->
  10 < 14.0 - - Math.log10 ((x * 0.1 - 25 * 0.1) / (25 + x)).
Proof.
  intros H.
  assert (Hlo : 1.5e-4 <= (x * 0.1 - 25 * 0.1) / (25 + x))
    by (apply quotient_ge; lra).
  pose proof (log10_gt_neg ((x * 0.1 - 25 * 0.1) / (25 + x)) 4 ltac:(lra)) as L.
  simpl INR in L. atom_log10. lra.
Qed.

(** X13. Under a strong base, from 25.1 mL to the end of the sweep, the
    flask shows the base-side colour of the selected indicator, whatever the
    acid. *)
Theorem currentColor_after_strong_base (state : TitrationState) :
  baseType state = strong ->
  25.1 <= addedBaseVol state <= 50 ->
  currentColor state = colorHigh (selectedInd state).
Proof.
  intros Hbase Hvol. unfold currentColor, currentPH, selectedInd. rewrite Hbase.
  apply getSolutionColor_above.
  assert (Hph : 10 < calculatePH (addedBaseVol state) (acidType state) strong).
  { destruct (acidType state).
    - value_at traced_SS_excessBase. apply excessBase_above_10, Hvol.
    - value_at traced_WS_excessBase. apply excessBase_above_10, Hvol. }
  destruct (indicator state); cbn [INDICATORS rangeHigh]; lra.
Qed.

Lemma currentColor_after_strong_base_witness :
  currentColor {| addedBaseVol := 30; indicator := methylRed;
                  acidType := weak; baseType := strong |}
  = colorHigh (INDICATORS methylRed).
Proof.
  apply (currentColor_after_strong_base
           {| addedBaseVol := 30; indicator := methylRed;
              acidType := weak; baseType := strong |}).
  - reflexivity.
  - simpl. lra.
Defined.

(** * What is drawn stays where it belongs *)

(** X14. In every state the controls can lead to, the titrant volume lies
    in [0, 50]; hence the liquid drawn in the burette never leaves the 200 px
    tube and never has a negative height, and the current point marker lies
    between the left and the right end of the volume axis. *)
Theorem reachable_state_geometry (s : TitrationState) :
  reachable s ->
  0 <= addedBaseVol s <= 50
  /\ 0 <= buretteLiquidY s <= 200
  /\ 0 <= buretteLiquidHeight s <= 200
  /\ buretteLiquidY s + buretteLiquidHeight s = 200
  /\ 40 <= markerX s <= 280.
Proof.
  intros Hs. pose proof (reachable_volume_bounds s Hs) as B.
  unfold buretteLiquidY, buretteLiquidHeight, markerX, mapX.
  repeat split; lra.
Qed.

Lemma reachable_state_geometry_witness :
  let s := handle (ClickVolume 5) (handle (SelectAcid weak) initialState) in
  0 <= addedBaseVol s <= 50
  /\ 0 <= buretteLiquidY s <= 200
  /\ 0 <= buretteLiquidHeight s <= 200
  /\ buretteLiquidY s + buretteLiquidHeight s = 200
  /\ 40 <= markerX s <= 280.
Proof.
  apply (reachable_state_geometry
           (handle (ClickVolume 5) (handle (SelectAcid weak) initialState))).
  apply reachable_handle, reachable_handle, reachable_initial.
Defined.

(** The pH stays on the scale at the start and on [clear_of_equivalence]. *)
Lemma calculatePH_on_scale (x : R) (acid base : ElectrolyteType) :
  x = 0 \/ clear_of_equivalence x ->
  0 <= calculatePH x acid base <= 14.
Proof.
  intros [E | [B | [Q | A]]].
  - destruct acid.
    + pose proof (calculatePH_strongAcid_before x base ltac:(lra)). lra.
    + pose proof (calculatePH_weakAcid_start x base E). lra.
  - destruct acid.
    + pose proof (calculatePH_strongAcid_before x base ltac:(lra)). lra.
    + pose proof (calculatePH_weakAcid_before x base B). lra.
  - subst x. destruct acid, base.
    + rewrite calculatePH_SS_25. lra.
    + pose proof calculatePH_SW_25. lra.
    + pose proof calculatePH_WS_25. lra.
    + rewrite calculatePH_WW_25. lra.
  - destruct base.
    + pose proof (calculatePH_strongBase_after x acid A). lra.
    + pose proof (calculatePH_weakBase_after x acid A). lra.
Qed.

(** X15. With no titrant added and at every volume of
    [clear_of_equivalence], the current point marker lies inside the plot
    area. *)
Theorem marker_in_plot_area (state : TitrationState) :
  addedBaseVol state = 0 \/ clear_of_equivalence (addedBaseVol state) ->
  in_plot_area (markerX state, markerY state).
Proof.
  intros H.
  pose proof (calculatePH_on_scale _ (acidType state) (baseType state) H) as P.
  assert (V : 0 <= addedBaseVol state <= 50)
    by (unfold clear_of_equivalence in H; lra).
  unfold in_plot_area, markerX, markerY, currentPH, mapX, mapY. cbn [fst snd].
  split; lra.
Qed.

Lemma marker_in_plot_area_witness :
  in_plot_area (markerX initialState, markerY initialState).
Proof. apply (marker_in_plot_area initialState). left. reflexivity. Defined.

Lemma sampledVolumes_on_scale :
  Forall (fun x => x = 0 \/ clear_of_equivalence x) sampledVolumes.
Proof.
  cbn [sampledVolumes sweep List.seq map app INR].
  repeat (apply Forall_cons; [unfold clear_of_equivalence; lra |]).
  apply Forall_nil.
Qed.

(** X16. For every strength combination the theoretical curve is drawn
    inside the plot area, from its left end to its right end and with
    strictly increasing abscissas. *)
Theorem polyline_in_plot_area (fuel : nat) (state : TitrationState) :
  (102 <= fuel)%nat ->
  exists points,
    graphPoints fuel state = Some points
    /\ Forall in_plot_area (polylinePoints points)
    /\ hd_error (map fst (polylinePoints points)) = Some 40
    /\ last (map fst (polylinePoints points)) 0 = 280
    /\ Forall (fun ab => fst ab < snd ab)
         (neighbours (map fst (polylinePoints points))).
Proof.
  intros Hfuel.
  exists (map (point (acidType state) (baseType state)) sampledVolumes).
  split; [apply coarseLoop_from_start, Hfuel |].
  assert (Hxs : map fst (polylinePoints
                           (map (point (acidType state) (baseType state)) sampledVolumes))
                = map mapX sampledVolumes).
  { unfold polylinePoints. rewrite !map_map. reflexivity. }
  rewrite Hxs.
  split; [| split; [| split]].
  - unfold polylinePoints. rewrite map_map. apply Forall_map.
    eapply Forall_impl; [| exact sampledVolumes_on_scale].
    intros x Hx. cbn [point v ph].
    pose proof (calculatePH_on_scale x (acidType state) (baseType state) Hx) as P.
    assert (V : 0 <= x <= 50) by (unfold clear_of_equivalence in Hx; lra).
    unfold in_plot_area, mapX, mapY. cbn [fst snd]. split; lra.
  - cbn [sampledVolumes sweep List.seq map app hd_error INR]. f_equal.
    unfold mapX. lra.
  - unfold sampledVolumes. rewrite app_assoc.
    change 49%nat with (S 48) at 2. unfold sweep at 3.
    rewrite seq_S, !map_app, app_assoc. cbn [map]. rewrite last_last.
    rewrite INR_IZR_INZ. cbn [Nat.add Z.of_nat Pos.of_succ_nat Pos.succ].
    unfold mapX. lra.
  - cbn [sampledVolumes sweep List.seq map app neighbours tl combine INR].
    repeat (apply Forall_cons; [unfold mapX; cbn [fst snd]; lra |]).
    apply Forall_nil.
Qed.

Lemma polyline_in_plot_area_witness :
  exists points,
    graphPoints 102 initialState = Some points
    /\ Forall in_plot_area (polylinePoints points)
    /\ hd_error (map fst (polylinePoints points)) = Some 40
    /\ last (map fst (polylinePoints points)) 0 = 280
    /\ Forall (fun ab => fst ab < snd ab)
         (neighbours (map fst (polylinePoints points))).
Proof. apply (polyline_in_plot_area 102 initialState). lia. Defined.

(** X17. For every indicator the range band behind the curve lies inside
    the plot area and has a positive height, 160/14 px for each unit of pH
    between the two ends of the range. *)
Theorem indicator_band_geometry (state : TitrationState) :
  20 <= indRangeYStart state
  /\ indRangeYStart state + indRangeHeight state <= 180
  /\ 0 < indRangeHeight state
  /\ indRangeHeight state
     = (rangeHigh (selectedInd state) - rangeLow (selectedInd state)) * (160 / 14).
Proof.
  unfold indRangeHeight, indRangeYStart, selectedInd, mapY.
  destruct (indicator state); cbn [INDICATORS rangeLow rangeHigh];
    repeat split; lra.
Qed.

(** * Silver mirror reaction *)

(** ** Guards and rounding *)

Lemma num_lt_reflect (x y : R) : reflect (x < y) (x <. y).
Proof. unfold num_lt. destruct (Rlt_dec x y); constructor; assumption. Qed.

Lemma num_gt_reflect (x y : R) : reflect (y < x) (x >. y).
Proof. apply num_lt_reflect. Qed.

Lemma num_le_reflect (x y : R) : reflect (x <= y) (x <=. y).
Proof. unfold num_le. destruct (Rle_dec x y); constructor; assumption. Qed.

Lemma num_ge_reflect (x y : R) : reflect (y <= x) (x >=. y).
Proof. apply num_le_reflect. Qed.

Lemma num_eq_reflect (x y : R) : reflect (x = y) (x ===. y).
Proof. unfold num_eq. destruct (Req_EM_T x y); constructor; assumption. Qed.

Lemma Math_ceil_bounds (x : R) : x <= Math_ceil x < x + 1.
Proof.
  unfold Math_ceil. rewrite opp_IZR.
  destruct (base_Int_part (- x)) as [H1 H2]. lra.
Qed.

Lemma min_cases (a b : R) : (a <= b /\ Math.min a b = a) \/ (b < a /\ Math.min a b = b).
Proof.
  unfold Math.min, Rmin. destruct (Rle_dec a b); [left | right]; split; lra.
Qed.

Lemma max_cases (a b : R) : (a <= b /\ Math.max a b = b) \/ (b < a /\ Math.max a b = a).
Proof.
  unfold Math.max, Rmax. destruct (Rle_dec a b); [left | right]; split; lra.
Qed.

Module SilverMirrorFacts.
Import SilverMirrorReaction.

Lemma ammoniaRatio_bounds (s : State) :
  0 <= C (drops s) -> 0 <= ammoniaRatio s <= 1.
Proof.
  intros HC. unfold ammoniaRatio.
  destruct (num_gt_reflect (neededAmmonia s) 0) as [Hpos | Hnpos]; [| lra].
  destruct (min_cases (C (drops s) / neededAmmonia s) 1) as [[H ->] | [H ->]]; [| lra].
  split; [| assumption].
  apply Rmult_le_pos; [assumption |]. left. apply Rinv_0_lt_compat, Hpos.
Qed.

Lemma ammoniaRatio_saturated (s : State) :
  neededAmmonia s <= C (drops s) -> ammoniaRatio s = 1.
Proof.
  intros H. unfold ammoniaRatio.
  destruct (num_gt_reflect (neededAmmonia s) 0) as [Hpos | Hnpos]; [| reflexivity].
  destruct (min_cases (C (drops s) / neededAmmonia s) 1) as [[Hle ->] | [_ ->]];
    [| reflexivity].
  apply Rle_antisym; [assumption |].
  apply quotient_ge; lra.
Qed.

Lemma baseTurbidity_bounds (s : State) :
  0 <= baseTurbidity s
  /\ (hasReactantsForPpt s = true ->
      baseTurbidity s <= A (drops s) / 10 /\ baseTurbidity s <= B (drops s) / 10).
Proof.
  unfold baseTurbidity, hasReactantsForPpt.
  destruct (num_gt_reflect (A (drops s)) 0) as [HA | HA];
    destruct (num_gt_reflect (B (drops s)) 0) as [HB | HB]; cbn [andb];
    try (split; [lra | discriminate]).
  destruct (min_cases (A (drops s)) (B (drops s))) as [[H ->] | [H ->]];
    (split; [lra | intros _; lra]).
Qed.

Lemma reachable_bounds (s : State) :
  reachable s ->
  (0 <= A (drops s) /\ 0 <= B (drops s) /\ 0 <= C (drops s) /\ 0 <= D (drops s))
  /\ 0 <= shakeSpeed s <= 100
  /\ 0 <= reactionProgress s <= 100.
Proof.
  induction 1 as [| e s Hs IH Hval].
  - cbn. lra.
  - destruct IH as [(HA & HB & HC & HD) [Hshake Hprog]].
    destruct e as [type | | value | |]; cbn [handle].
    + unfold addDrop. destruct (isCapped s); cbn; [lra |].
      destruct type; cbn; lra.
    + cbn. lra.
    + specialize (Hval value eq_refl). cbn. lra.
    + cbn. lra.
    + unfold animate. cbn [drops shakeSpeed reactionProgress].
      split; [lra |]. split.
      * destruct ((shakeSpeed s >. 0) && negb (isCapped s)); lra.
      * destruct (canReact s && isCapped s && (shakeSpeed s >. 0)
                  && (reactionProgress s <. 100)) eqn:Hgo; [| lra].
        apply andb_prop in Hgo. destruct Hgo as [Hgo _].
        apply andb_prop in Hgo. destruct Hgo as [_ Hsh].
        destruct (num_gt_reflect (shakeSpeed s) 0) as [Hpos | ]; [| discriminate Hsh].
        assert (Hrate : 0 <= 0.05 * shakeSpeed s / (totalDrops s + 5)).
        { apply Rmult_le_pos; [lra |]. left. apply Rinv_0_lt_compat.
          unfold totalDrops. lra. }
        destruct (min_cases (reactionProgress s + 0.05 * shakeSpeed s / (totalDrops s + 5)) 100)
          as [[Hle ->] | [Hlt ->]]; lra.
Qed.


(** X18. Once the drops of ammonia reach the suggested count
    [Math.ceil(drops.A * 1.2)], the precipitate is gone: the turbidity is 0,
    the solution is not cloudy and, if silver nitrate and hydroxide are both
    present, it counts as the clear complex. *)
Theorem suggested_ammonia_clears (s : State) :
  suggestedC s <= C (drops s) ->
  turbidity s = 0
  /\ isCloudy s = false
  /\ isClearComplex s = hasReactantsForPpt s.
Proof.
  intros H.
  assert (Hneeded : neededAmmonia s <= C (drops s)).
  { unfold suggestedC in H. unfold neededAmmonia.
    pose proof (Math_ceil_bounds (A (drops s) * 1.2)). lra. }
  assert (Hturb : turbidity s = 0).
  { unfold turbidity. rewrite (ammoniaRatio_saturated s Hneeded).
    replace (baseTurbidity s * (1 - 1)) with 0 by ring.
    destruct (max_cases 0 0) as [[_ ->] | [_ ->]]; reflexivity. }
  assert (Hcloudy : isCloudy s = false).
  { unfold isCloudy. rewrite Hturb. apply num_gt_false. lra. }
  split; [exact Hturb |]. split; [exact Hcloudy |].
  unfold isClearComplex. rewrite Hcloudy. apply andb_true_r.
Qed.

Lemma suggested_ammonia_clears_witness :
  let s := {| drops := {| A := 1; B := 1; C := 3; D := 0 |};
              isCapped := false; shakeSpeed := 0; reactionProgress := 0;
              warning := None |} in
  turbidity s = 0 /\ isCloudy s = false /\ isClearComplex s = hasReactantsForPpt s.
Proof.
  apply (suggested_ammonia_clears
           {| drops := {| A := 1; B := 1; C := 3; D := 0 |};
              isCapped := false; shakeSpeed := 0; reactionProgress := 0;
              warning := None |}).
  unfold suggestedC. cbn [drops A C].
  pose proof (Math_ceil_bounds (1 * 1.2)). lra.
Defined.

(** A run of the controls from the initial state. *)
Lemma reachable_run (events : list Event) :
  (forall value, In (Shake value) events -> 0 <= value <= 100) ->
  reachable (fold_left (fun s e => handle e s) events initialState).
Proof.
  intros Hval.
  assert (G : forall s, reachable s ->
              reachable (fold_left (fun s e => handle e s) events s)).
  { induction events as [| e events IH]; intros s Hs; [exact Hs |].
    cbn [fold_left]. apply IH.
    - intros value Hin. apply Hval. right. exact Hin.
    - apply reachable_handle; [exact Hs |].
      intros value E. apply Hval. left. exact E. }
  apply G, reachable_initial.
Qed.

(** X19. In every reachable state the turbidity lies between 0 and a tenth
    of the smaller of the silver nitrate and hydroxide counts; the solution
    is not cloudy with at most one drop of silver nitrate, with at most one
    drop of hydroxide, or with ammonia at 1.2 times the silver nitrate or
    more. *)
Theorem cloudiness_needs_reagents (s : State) :
  reachable s ->
  0 <= turbidity s
  /\ turbidity s <= Math.min (A (drops s)) (B (drops s)) / 10
  /\ (A (drops s) <= 1 \/ B (drops s) <= 1 \/ A (drops s) * 1.2 <= C (drops s) ->
      isCloudy s = false).
Proof.
  intros Hs.
  destruct (reachable_bounds s Hs) as [(HA & HB & HC & HD) _].
  pose proof (ammoniaRatio_bounds s HC) as Hratio.
  destruct (baseTurbidity_bounds s) as [Hbase0 Hbase].
  assert (Hupper : turbidity s <= baseTurbidity s).
  { unfold turbidity.
    destruct (max_cases 0 (baseTurbidity s * (1 - ammoniaRatio s))) as [[_ ->] | [_ ->]];
      nra. }
  assert (Hlower : 0 <= turbidity s).
  { unfold turbidity.
    destruct (max_cases 0 (baseTurbidity s * (1 - ammoniaRatio s))) as [[? ->] | [_ ->]];
      lra. }
  assert (Hmin : baseTurbidity s <= Math.min (A (drops s)) (B (drops s)) / 10).
  { unfold baseTurbidity. destruct (hasReactantsForPpt s); [lra |].
    destruct (min_cases (A (drops s)) (B (drops s))) as [[_ ->] | [_ ->]]; lra. }
  split; [exact Hlower |]. split; [lra |].
  intros Hfew. unfold isCloudy. apply num_gt_false.
  destruct Hfew as [HA1 | [HB1 | HC1]].
  - destruct (min_cases (A (drops s)) (B (drops s))) as [[Hle E] | [Hlt E]];
      rewrite E in Hmin; lra.
  - destruct (min_cases (A (drops s)) (B (drops s))) as [[Hle E] | [Hlt E]];
      rewrite E in Hmin; lra.
  - assert (Hsat : ammoniaRatio s = 1)
      by (apply ammoniaRatio_saturated; unfold neededAmmonia; lra).
    unfold turbidity. rewrite Hsat.
    replace (baseTurbidity s * (1 - 1)) with 0 by ring.
    destruct (max_cases 0 0) as [[_ ->] | [_ ->]]; lra.
Qed.

Lemma cloudiness_needs_reagents_witness :
  let s := fold_left (fun s e => handle e s)
             [AddDrop Reagent_A; AddDrop Reagent_B; AddDrop Reagent_B; AddDrop Reagent_B]
             initialState in
  0 <= turbidity s
  /\ turbidity s <= Math.min (A (drops s)) (B (drops s)) / 10
  /\ isCloudy s = false.
Proof.
  intros s.
  assert (Hs : reachable s).
  { apply reachable_run. intros value Hin. cbn in Hin.
    repeat (destruct Hin as [Hin | Hin]; [discriminate Hin |]). contradiction. }
  destruct (cloudiness_needs_reagents s Hs) as (H0 & H1 & H2).
  split; [exact H0 |]. split; [exact H1 |].
  apply H2. left. subst s.
  cbv [fold_left handle addDrop addOne initialState isCapped drops A B C D].
  lra.
Defined.

(** After one drop of silver nitrate and three of hydroxide the turbidity is
    0.1, the largest value that is not cloudy; a second drop of silver
    nitrate makes the solution cloudy. *)
Lemma turbidity_of_first_drops :
  let s1 := fold_left (fun s e => handle e s)
              [AddDrop Reagent_A; AddDrop Reagent_B; AddDrop Reagent_B; AddDrop Reagent_B]
              initialState in
  let s2 := handle (AddDrop Reagent_A) s1 in
  turbidity s1 = 0.1 /\ isCloudy s1 = false
  /\ turbidity s2 = 0.2 /\ isCloudy s2 = true.
Proof.
  cbv zeta.
  assert (T1 : turbidity (fold_left (fun s e => handle e s)
                 [AddDrop Reagent_A; AddDrop Reagent_B; AddDrop Reagent_B; AddDrop Reagent_B]
                 initialState) = 0.1).
  { unfold turbidity, baseTurbidity, ammoniaRatio, neededAmmonia, hasReactantsForPpt.
    cbn [fold_left handle addDrop addOne initialState isCapped drops A B C D].
    rewrite !num_gt_true by lra. cbn [andb].
    destruct (min_cases (0 + 1) (0 + 1 + 1 + 1)) as [[_ ->] | [? _]]; [| lra].
    destruct (min_cases (0 / ((0 + 1) * 1.2)) 1) as [[_ ->] | [? _]]; [| lra].
    destruct (max_cases 0 ((0 + 1) / 10 * (1 - 0 / ((0 + 1) * 1.2)))) as [[_ ->] | [? _]];
      lra. }
  assert (T2 : turbidity (handle (AddDrop Reagent_A) (fold_left (fun s e => handle e s)
                 [AddDrop Reagent_A; AddDrop Reagent_B; AddDrop Reagent_B; AddDrop Reagent_B]
                 initialState)) = 0.2).
  { unfold turbidity, baseTurbidity, ammoniaRatio, neededAmmonia, hasReactantsForPpt.
    cbn [fold_left handle addDrop addOne initialState isCapped drops A B C D].
    rewrite !num_gt_true by lra. cbn [andb].
    destruct (min_cases (0 + 1 + 1) (0 + 1 + 1 + 1)) as [[_ ->] | [? _]]; [| lra].
    destruct (min_cases (0 / ((0 + 1 + 1) * 1.2)) 1) as [[_ ->] | [? _]]; [| lra].
    destruct (max_cases 0 ((0 + 1 + 1) / 10 * (1 - 0 / ((0 + 1 + 1) * 1.2))))
      as [[_ ->] | [? _]]; lra. }
  unfold isCloudy. rewrite T1, T2.
  split; [reflexivity |]. split; [apply num_gt_false; lra |].
  split; [reflexivity |]. apply num_gt_true; lra.
Qed.

(** X20. In every reachable state the silver coating stays between 0 and
    100, and an animation frame never takes any of it away. *)
Theorem reaction_progress_invariant (s : State) :
  reachable s ->
  0 <= reactionProgress s <= 100
  /\ reactionProgress s <= reactionProgress (animate s)
  /\ reactionProgress (animate s) <= 100.
Proof.
  intros Hs.
  destruct (reachable_bounds s Hs) as [(HA & HB & HC & HD) [_ Hprog]].
  assert (Hnext : reachable (animate s)).
  { apply (reachable_handle Frame s Hs). intros value Habs. discriminate Habs. }
  destruct (reachable_bounds _ Hnext) as [_ [_ Hprog']].
  split; [exact Hprog |]. split; [| lra].
  unfold animate. cbn [reactionProgress].
  destruct (canReact s && isCapped s && (shakeSpeed s >. 0)
            && (reactionProgress s <. 100)) eqn:Hgo; [| lra].
  apply andb_prop in Hgo. destruct Hgo as [Hgo Hlt].
  apply andb_prop in Hgo. destruct Hgo as [_ Hsh].
  destruct (num_gt_reflect (shakeSpeed s) 0) as [Hpos | ]; [| discriminate Hsh].
  destruct (num_lt_reflect (reactionProgress s) 100) as [Hlt100 | ]; [| discriminate Hlt].
  assert (Hrate : 0 <= 0.05 * shakeSpeed s / (totalDrops s + 5)).
  { apply Rmult_le_pos; [lra |]. left. apply Rinv_0_lt_compat.
    unfold totalDrops. lra. }
  destruct (min_cases (reactionProgress s + 0.05 * shakeSpeed s / (totalDrops s + 5)) 100)
    as [[Hle ->] | [Hgt ->]]; lra.
Qed.

Lemma reaction_progress_invariant_witness :
  let s := fold_left (fun s e => handle e s)
             [AddDrop Reagent_A; AddDrop Reagent_B; AddDrop Reagent_C;
              AddDrop Reagent_C; AddDrop Reagent_D; ToggleCap; Shake 50]
             initialState in
  0 <= reactionProgress s <= 100
  /\ reactionProgress s <= reactionProgress (animate s)
  /\ reactionProgress (animate s) <= 100.
Proof.
  intros s. apply (reaction_progress_invariant s).
  apply reachable_run. intros value Hin. cbn in Hin.
  repeat (destruct Hin as [Hin | Hin];
          [first [discriminate Hin | injection Hin as <-; lra] |]).
  contradiction.
Defined.

(** In that state (one drop each of silver nitrate, hydroxide and glucose,
    two of ammonia, the cap on, the slider at 50) the solution is clear and a
    frame adds 0.05 * 50 / (5 + 5) = 0.25 to the coating. *)
Lemma frame_advances_coating :
  let s := fold_left (fun s e => handle e s)
             [AddDrop Reagent_A; AddDrop Reagent_B; AddDrop Reagent_C;
              AddDrop Reagent_C; AddDrop Reagent_D; ToggleCap; Shake 50]
             initialState in
  canReact s = true
  /\ reactionProgress s = 0
  /\ reactionProgress (animate s) = 0.25.
Proof.
  cbv zeta.
  set (s := fold_left _ _ _).
  assert (Hdrops : drops s = {| A := 0 + 1; B := 0 + 1; C := 0 + 1 + 1; D := 0 + 1 |})
    by reflexivity.
  assert (Hcap : isCapped s = true) by reflexivity.
  assert (Hshake : shakeSpeed s = 50) by reflexivity.
  assert (Hprog : reactionProgress s = 0) by reflexivity.
  assert (Hhas : hasReactantsForPpt s = true).
  { unfold hasReactantsForPpt. rewrite Hdrops. cbn [A B].
    rewrite !num_gt_true by lra. reflexivity. }
  assert (Hturb : turbidity s = 0).
  { unfold turbidity.
    rewrite (ammoniaRatio_saturated s)
      by (unfold neededAmmonia; rewrite Hdrops; cbn [A C]; lra).
    replace (baseTurbidity s * (1 - 1)) with 0 by ring.
    destruct (max_cases 0 0) as [[_ ->] | [_ ->]]; reflexivity. }
  assert (Hreact : canReact s = true).
  { unfold canReact, isClearComplex, isCloudy. rewrite Hhas, Hturb, Hdrops. cbn [D].
    rewrite num_gt_false by lra. rewrite num_gt_true by lra. reflexivity. }
  split; [exact Hreact |]. split; [exact Hprog |].
  unfold animate. cbn [reactionProgress].
  rewrite Hreact, Hcap, Hshake, Hprog.
  rewrite num_gt_true by lra. rewrite num_lt_true by lra. cbn [andb].
  unfold totalDrops. rewrite Hdrops. cbn [A B C D].
  destruct (min_cases (0 + 0.05 * 50 / (0 + 1 + (0 + 1) + (0 + 1 + 1) + (0 + 1) + 5)) 100)
    as [[_ ->] | [Hgt _]]; lra.
Qed.

(** X21. An animation frame that finds the vial shaken without its cap stops
    the shaking and raises the danger warning; and no frame advances the
    silver coating while the vial is open. *)
Theorem uncapped_vial_is_safe (s : State) :
  isCapped s = false ->
  reactionProgress (animate s) = reactionProgress s
  /\ (0 < shakeSpeed s ->
      shakeSpeed (animate s) = 0
      /\ warning (animate s)
         = Some "警告：危險！請先蓋上蓋子再搖晃 (Danger: Cap the vial before shaking!)").
Proof.
  intros Hcap. unfold animate. cbn [reactionProgress shakeSpeed warning].
  rewrite Hcap. rewrite andb_false_r. cbn [andb negb].
  split; [reflexivity |].
  intros Hshake. rewrite (num_gt_true _ _ Hshake). cbn [andb]. split; reflexivity.
Qed.

Lemma uncapped_vial_is_safe_witness :
  let s := handle (Shake 50) initialState in
  reactionProgress (animate s) = reactionProgress s
  /\ (0 < shakeSpeed s ->
      shakeSpeed (animate s) = 0
      /\ warning (animate s)
         = Some "警告：危險！請先蓋上蓋子再搖晃 (Danger: Cap the vial before shaking!)").
Proof. apply (uncapped_vial_is_safe (handle (Shake 50) initialState)). reflexivity. Defined.

(** X22. Adding a drop to a capped vial adds nothing and asks to uncap
    first; on an open vial it adds exactly one drop, of the chosen reagent
    only, and clears the warning.  Either way the cap, the shaking and the
    coating are left alone. *)
Theorem addDrop_effect (type : Reagent) (s : State) :
  totalDrops (addDrop type s) = totalDrops s + (if isCapped s then 0 else 1)
  /\ (isCapped s = true ->
      drops (addDrop type s) = drops s
      /\ warning (addDrop type s) = Some "請先打開蓋子才能滴加試劑 (Uncap first)")
  /\ (isCapped s = false ->
      drops (addDrop type s) = addOne type (drops s)
      /\ warning (addDrop type s) = None)
  /\ isCapped (addDrop type s) = isCapped s
  /\ shakeSpeed (addDrop type s) = shakeSpeed s
  /\ reactionProgress (addDrop type s) = reactionProgress s.
Proof.
  unfold addDrop, totalDrops.
  destruct (isCapped s) eqn:Hcap; cbn [drops isCapped shakeSpeed reactionProgress warning].
  - repeat split; try reflexivity; try discriminate. lra.
  - repeat split; try reflexivity; try discriminate.
    destruct type; cbn [addOne A B C D]; lra.
Qed.

(** X23. In every reachable state the liquid fills between 0 and 90 percent
    of the vial, its surface is drawn between y = 125 and y = 350, and from
    45 drops on the level no longer rises. *)
Theorem liquid_level_bounds (s : State) :
  reachable s ->
  0 <= liquidHeightPercent s <= 90
  /\ 125 <= liquidY s <= 350
  /\ (45 <= totalDrops s -> liquidHeightPercent s = 90).
Proof.
  intros Hs.
  destruct (reachable_bounds s Hs) as [(HA & HB & HC & HD) _].
  assert (Htotal : 0 <= totalDrops s) by (unfold totalDrops; lra).
  unfold liquidY, liquidHeightPercent.
  destruct (min_cases (totalDrops s / 50 * 100) 90) as [[H ->] | [H ->]];
    repeat split; lra.
Qed.

Lemma liquid_level_bounds_witness :
  let s := fold_left (fun s e => handle e s)
             (repeat (AddDrop Reagent_A) 15 ++ repeat (AddDrop Reagent_B) 15
              ++ repeat (AddDrop Reagent_C) 15)
             initialState in
  0 <= liquidHeightPercent s <= 90
  /\ 125 <= liquidY s <= 350
  /\ liquidHeightPercent s = 90.
Proof.
  intros s.
  assert (Hs : reachable s).
  { apply reachable_run. intros value Hin.
    apply in_app_or in Hin. destruct Hin as [Hin | Hin];
      [| apply in_app_or in Hin; destruct Hin as [Hin | Hin]];
      apply repeat_spec in Hin; discriminate Hin. }
  destruct (liquid_level_bounds s Hs) as (H0 & H1 & H2).
  split; [exact H0 |]. split; [exact H1 |].
  apply H2. unfold totalDrops. subst s.
  cbv [fold_left repeat app handle addDrop addOne initialState isCapped drops A B C D].
  lra.
Defined.

(** Half-way there, after 20 drops, the vial is filled to 40 percent and the
    surface is drawn at y = 250. *)
Lemma liquid_level_of_20_drops :
  let s := fold_left (fun s e => handle e s) (repeat (AddDrop Reagent_A) 20)
             initialState in
  totalDrops s = 20 /\ liquidHeightPercent s = 40 /\ liquidY s = 250.
Proof.
  cbv zeta.
  set (s := fold_left _ _ _).
  assert (Htotal : totalDrops s = 20).
  { unfold totalDrops. subst s.
    cbv [fold_left repeat app handle addDrop addOne initialState isCapped drops A B C D].
    lra. }
  assert (Hlevel : liquidHeightPercent s = 40).
  { unfold liquidHeightPercent. rewrite Htotal.
    destruct (min_cases (20 / 50 * 100) 90) as [[_ ->] | [? _]]; lra. }
  split; [exact Htotal |]. split; [exact Hlevel |].
  unfold liquidY. rewrite Hlevel. lra.
Qed.

End SilverMirrorFacts.

(** * The animated components *)

(** ** The remainder by 1 *)

Lemma js_rem_1_range (t : R) : 0 <= t -> 0 <= t %. 1 < 1.
Proof.
  intros Ht. unfold js_rem, js_trunc. rewrite Rdiv_1_r.
  destruct (Rle_dec 0 t) as [_ | Hneg]; [| contradiction].
  destruct (base_Int_part t) as [H1 H2]. lra.
Qed.

Lemma js_rem_1_small (t : R) : 0 <= t < 1 -> t %. 1 = t.
Proof.
  intros Ht. unfold js_rem, js_trunc. rewrite Rdiv_1_r.
  destruct (Rle_dec 0 t) as [_ | Hneg]; [| lra].
  rewrite <- (Int_part_spec t 0) by (simpl; lra). simpl. lra.
Qed.

(** ** Displacement reaction *)

Module DisplacementFacts.
Import DisplacementReaction.





Lemma frames_before_completion (n : nat) :
  (n <= 667)%nat -> Nat.iter n animate 0 = INR n * ANIMATION_SPEED.
Proof.
  induction n as [| n IH]; intros Hn.
  - cbn. lra.
  - rewrite Nat.iter_succ. rewrite IH by lia. rewrite S_INR.
    assert (Hle : INR n <= 666).
    { replace 666 with (INR 666) by (rewrite INR_IZR_INZ; reflexivity).
      apply le_INR. lia. }
    pose proof (pos_INR n) as Hpos.
    unfold animate, ANIMATION_SPEED.
    destruct (num_ge_reflect (INR n * 0.0015) 1); lra.
Qed.

Lemma frames_after_completion (k : nat) :
  Nat.iter (668 + k) animate 0 = 1.
Proof.
  induction k as [| k IH].
  - change (668 + 0)%nat with (S 667). rewrite Nat.iter_succ.
    rewrite frames_before_completion by lia.
    replace (INR 667) with 667 by (rewrite INR_IZR_INZ; reflexivity).
    unfold animate, ANIMATION_SPEED.
    destruct (num_ge_reflect (667 * 0.0015) 1); lra.
  - replace (668 + S k)%nat with (S (668 + k)) by lia. rewrite Nat.iter_succ.
    rewrite IH. unfold animate.
    destruct (num_ge_reflect 1 1); lra.
Qed.

(** X25. Started from 0, the updater of the animation adds 0.0015 at each of
    the first 667 frames, the first of which to reach completion is the
    667th, at 1.0005; from the 668th frame on the progress is exactly 1. *)
Theorem displacement_frames (n : nat) :
  ((n <= 667)%nat -> Nat.iter n animate 0 = INR n * 0.0015)
  /\ ((n < 667)%nat -> Nat.iter n animate 0 < 1)
  /\ Nat.iter 667 animate 0 = 1.0005
  /\ ((668 <= n)%nat -> Nat.iter n animate 0 = 1).
Proof.
  split; [| split; [| split]].
  - intros Hn. rewrite frames_before_completion by exact Hn. reflexivity.
  - intros Hn. rewrite frames_before_completion by lia.
    assert (Hle : INR n <= 666).
    { replace 666 with (INR 666) by (rewrite INR_IZR_INZ; reflexivity).
      apply le_INR. lia. }
    unfold ANIMATION_SPEED. lra.
  - rewrite frames_before_completion by lia.
    replace (INR 667) with 667 by (rewrite INR_IZR_INZ; reflexivity).
    unfold ANIMATION_SPEED. lra.
  - intros Hn. replace n with (668 + (n - 668))%nat by lia.
    apply frames_after_completion.
Qed.

End DisplacementFacts.

(** ** Galvanic cell *)

Module GalvanicFacts.
Import Types GalvanicCell.

Lemma galvanic_time_nonneg (s : State) : reachable s -> 0 <= time s.
Proof.
  induction 1 as [| e s Hs IH].
  - cbn. lra.
  - destruct e; cbn; unfold animate, ANIMATION_SPEED; lra.
Qed.

Lemma galvanic_deformation_bounds (s : State) :
  0 <= time s -> 0 <= deformation s <= 30.
Proof.
  intros Ht. unfold deformation.
  destruct (min_cases (time s * 15) 30) as [[H ->] | [H ->]]; lra.
Qed.

(** X26. At every time [0 <= t] the electron drawn by [getWirePos] sits on
    the wire: on the rising segment at x = 100, on the top segment at y = 40
    or on the falling segment at x = 500. *)
Theorem getWirePos_on_wire (t : R) :
  0 <= t -> on_galvanic_wire (getWirePos t).
Proof.
  intros Ht. pose proof (js_rem_1_range t Ht) as Hp.
  unfold getWirePos, on_galvanic_wire. cbv zeta.
  destruct (num_lt_reflect (t %. 1) 0.14) as [H1 | H1]; step_body.
  - left. cbn [x y]. split; [reflexivity | lra].
  - destruct (num_lt_reflect (t %. 1) 0.86) as [H2 | H2]; step_body.
    + right; left. cbn [x y]. split; [reflexivity | lra].
    + right; right. cbn [x y]. split; [reflexivity | lra].
Qed.

Lemma getWirePos_on_wire_witness : on_galvanic_wire (getWirePos 0.5).
Proof. apply (getWirePos_on_wire 0.5). lra. Defined.



(** X28. In every reachable state of the galvanic cell the zinc electrode is
    exactly [40 - deformation] wide, between 10 and 40 (the lower bound of
    its [Math.max] is never needed), the copper electrode keeps its right
    edge at 520 and gains what the zinc one loses, and the ions stay in the
    solution: a zinc ion is drawn at or to the right of the zinc surface, a
    copper ion between x = 430 and the copper surface. *)
Theorem galvanic_electrodes (s : State) (offset : R) :
  reachable s -> 0 <= offset ->
  anodeWidth s = 40 - deformation s
  /\ 10 <= anodeWidth s <= 40
  /\ cathodeX s + cathodeWidth s = 520
  /\ anodeWidth s + cathodeWidth s = 80
  /\ 80 + anodeWidth s <= znIonX s offset
  /\ 430 <= cuIonX s offset <= cathodeX s.
Proof.
  intros Hs Hoff. pose proof (galvanic_time_nonneg s Hs) as Ht.
  pose proof (galvanic_deformation_bounds s Ht) as Hd.
  pose proof (js_rem_1_range (time s + offset) ltac:(lra)) as Hp.
  assert (Hw : anodeWidth s = 40 - deformation s).
  { unfold anodeWidth.
    destruct (max_cases 10 (40 - deformation s)) as [[_ ->] | [H ->]]; lra. }
  unfold znIonX, cuIonX, cathodeX, cathodeWidth. cbv zeta.
  fold (anodeWidth s). rewrite Hw.
  set (p := (time s + offset) %. 1) in *.
  repeat split; nra.
Qed.

Lemma galvanic_electrodes_witness :
  let s := handle Frame initialState in
  anodeWidth s = 40 - deformation s
  /\ 10 <= anodeWidth s <= 40
  /\ cathodeX s + cathodeWidth s = 520
  /\ anodeWidth s + cathodeWidth s = 80
  /\ 80 + anodeWidth s <= znIonX s 0.25
  /\ 430 <= cuIonX s 0.25 <= cathodeX s.
Proof.
  apply (galvanic_electrodes (handle Frame initialState) 0.25).
  - apply reachable_handle, reachable_initial.
  - lra.
Defined.

End GalvanicFacts.

(** ** Electroplating cell *)

Module ElectroplatingFacts.
Import Types ElectroplatingCell.

Lemma plating_time_nonneg (s : State) : reachable s -> 0 <= time s.
Proof.
  induction 1 as [| e s Hs IH].
  - cbn. lra.
  - destruct e; cbn; unfold animate, ANIMATION_SPEED; lra.
Qed.

Lemma plating_deformation_bounds (s : State) :
  0 <= time s -> 0 <= deformation s <= 15.
Proof.
  intros Ht. unfold deformation.
  destruct (min_cases (time s * 10) 15) as [[H ->] | [H ->]]; lra.
Qed.

(** X29. At every time [0 <= t] the electrons drawn by [getWirePosLeft] and
    [getWirePosRight] sit on their wires, from the anode up and over to the
    battery and from the battery over and down to the cathode. *)
Theorem electroplating_wires (t : R) :
  0 <= t -> on_left_wire (getWirePosLeft t) /\ on_right_wire (getWirePosRight t).
Proof.
  intros Ht. pose proof (js_rem_1_range t Ht) as Hp.
  unfold getWirePosLeft, getWirePosRight, on_left_wire, on_right_wire. cbv zeta.
  split.
  - destruct (num_lt_reflect (t %. 1) 0.47) as [H | H]; cbn [x y].
    + left. split; [reflexivity | lra].
    + right. split; [reflexivity | lra].
  - destruct (num_lt_reflect (t %. 1) 0.53) as [H | H]; cbn [x y].
    + left. split; [reflexivity | lra].
    + right. split; [reflexivity | lra].
Qed.

Lemma electroplating_wires_witness :
  on_left_wire (getWirePosLeft 0.5) /\ on_right_wire (getWirePosRight 0.5).
Proof. apply (electroplating_wires 0.5). lra. Defined.

(** X30. In every reachable state of the electroplating cell the copper
    anode is exactly [40 - deformation] wide, between 25 and 40; the plating
    layer covers the graphite cathode (x = 400 to 440) and stays centred on
    it; and the ions stay in the solution: those leaving the anode are drawn
    between its surface and x = 250, those plating the cathode between 60 px
    before the plating layer and its surface. *)
Theorem electroplating_electrodes (s : State) (offset : R) :
  reachable s -> 0 <= offset ->
  anodeWidth s = 40 - deformation s
  /\ 25 <= anodeWidth s <= 40
  /\ platingX s <= 400 /\ 440 <= platingX s + platingWidth s
  /\ platingX s + platingWidth s / 2 = 420
  /\ 160 + anodeWidth s <= oxIonX s offset < 250
  /\ platingX s - 60 <= redIonX s offset < platingX s.
Proof.
  intros Hs Hoff. pose proof (plating_time_nonneg s Hs) as Ht.
  pose proof (plating_deformation_bounds s Ht) as Hd.
  pose proof (js_rem_1_range (time s + offset) ltac:(lra)) as Hp.
  assert (Hw : anodeWidth s = 40 - deformation s).
  { unfold anodeWidth.
    destruct (max_cases 10 (40 - deformation s)) as [[_ ->] | [H ->]]; lra. }
  unfold oxIonX, redIonX, platingX, platingWidth. cbv zeta.
  fold (anodeWidth s). rewrite Hw.
  set (p := (time s + offset) %. 1) in *.
  repeat split; lra.
Qed.

Lemma electroplating_electrodes_witness :
  let s := handle Frame initialState in
  anodeWidth s = 40 - deformation s
  /\ 25 <= anodeWidth s <= 40
  /\ platingX s <= 400 /\ 440 <= platingX s + platingWidth s
  /\ platingX s + platingWidth s / 2 = 420
  /\ 160 + anodeWidth s <= oxIonX s 0.3 < 250
  /\ platingX s - 60 <= redIonX s 0.3 < platingX s.
Proof.
  apply (electroplating_electrodes (handle Frame initialState) 0.3).
  - apply reachable_handle, reachable_initial.
  - lra.
Defined.

End ElectroplatingFacts.
